(** * domains-lookup: a shallow embedding of [lookup.js]

    The script enumerates every fixed-length lowercase name, keeps the
    ones whose consonant/vowel shape is wanted and pronounceable, and asks
    a registrar about them in batches of 50 per TLD, saving the names found
    available as it goes.

    Conventions of the embedding.
    - A JavaScript string is a [string]; its characters are the ASCII
      characters, which is what the generator produces and what the
      pattern arguments of the command line are made of.
    - [numberOfLetters] is a [nat]: the script exits before any work when
      [parseInt] does not give an integer that is at least 1.
    - Arrays are lists; the objects [available] and [domainCounters],
      which the script indexes by TLD, are finite maps keyed by the TLD.
    - The registrar is an oracle that answers the n-th request; a rejected
      promise is an explicit outcome, so that an uncaught exception shows
      up as an aborted run.
    - [console.log] and the pause between batches are not modelled. *)

From Stdlib Require Import ZArith Ascii String List Sorted Lia DecimalString.
From stdpp Require Import gmap strings list.

Local Open Scope string_scope.
Local Open Scope nat_scope.
Local Open Scope list_scope.
Local Open Scope stdpp_scope.

(** ** The string built-ins the script uses *)

Module Js.

Fixpoint startsWith (s p : string) : bool :=
  match p, s with
  | EmptyString, _ => true
  | String _ _, EmptyString => false
  | String b p', String a s' => Ascii.eqb a b && startsWith s' p'
  end.

Fixpoint includes (s p : string) : bool :=
  startsWith s p ||
  match s with
  | EmptyString => false
  | String _ s' => includes s' p
  end.

Fixpoint substringFrom (n : nat) (s : string) : string :=
  match n, s with
  | O, _ => s
  | S _, EmptyString => EmptyString
  | S n', String _ s' => substringFrom n' s'
  end.

Definition endsWith (s p : string) : bool :=
  (String.length p <=? String.length s) &&
  String.eqb (substringFrom (String.length s - String.length p) s) p.

(** [s.split("")]: the characters of [s], each as a string. *)
Fixpoint chars (s : string) : list string :=
  match s with
  | EmptyString => []
  | String c s' => String c EmptyString :: chars s'
  end.

(** [a.join("")]. *)
Definition join (a : list string) : string :=
  fold_right String.append EmptyString a.

(** [s.split(sep)] for a one-character separator. *)
Fixpoint split (sep : ascii) (s : string) : list string :=
  match s with
  | EmptyString => [EmptyString]
  | String c s' =>
      if Ascii.eqb c sep then EmptyString :: split sep s'
      else match split sep s' with
           | [] => [String c EmptyString]
           | hd :: tl => String c hd :: tl
           end
  end.

Definition isUpper (c : ascii) : bool :=
  (65 <=? nat_of_ascii c) && (nat_of_ascii c <=? 90).

Definition isLower (c : ascii) : bool :=
  (97 <=? nat_of_ascii c) && (nat_of_ascii c <=? 122).

Definition lowerChar (c : ascii) : ascii :=
  if isUpper c then ascii_of_nat (nat_of_ascii c + 32) else c.

Definition upperChar (c : ascii) : ascii :=
  if isLower c then ascii_of_nat (nat_of_ascii c - 32) else c.

Fixpoint mapChars (f : ascii -> ascii) (s : string) : string :=
  match s with
  | EmptyString => EmptyString
  | String c s' => String (f c) (mapChars f s')
  end.

(** Case conversion of ASCII text: the letters a-z and A-Z are mapped,
    every other ASCII character is left as it is.  The built-ins follow
    the Unicode tables on the characters beyond ASCII, which are outside
    the model. *)
Definition toLowerCase : string -> string := mapChars lowerChar.
Definition toUpperCase : string -> string := mapChars upperChar.

(** White space and line terminators within ASCII. *)
Definition isWhiteSpace (c : ascii) : bool :=
  let n := nat_of_ascii c in
  ((9 <=? n) && (n <=? 13)) || (n =? 32).

Fixpoint trimStart (s : string) : string :=
  match s with
  | EmptyString => EmptyString
  | String c s' => if isWhiteSpace c then trimStart s' else s
  end.

Fixpoint trimEnd (s : string) : string :=
  match s with
  | EmptyString => EmptyString
  | String c s' =>
      match trimEnd s' with
      | EmptyString => if isWhiteSpace c then EmptyString
                       else String c EmptyString
      | t => String c t
      end
  end.

Definition trim (s : string) : string := trimEnd (trimStart s).

(** [a.slice(i, j)] for [0 <= i <= j]; both ends are clamped to the
    length of the array. *)
Definition slice {A} (i j : nat) (a : list A) : list A :=
  firstn (j - i) (skipn i a).

(** [a.join(sep)]. *)
Fixpoint joinWith (sep : string) (a : list string) : string :=
  match a with
  | [] => EmptyString
  | [x] => x
  | x :: rest => x +:+ sep +:+ joinWith sep rest
  end.

End Js.

(** ** Pattern classifier (lines 39-104) *)

Definition VOWELS : string := "aeiou".
Definition CONSONANTS : string := "bcdfghjklmnpqrstvwxyz".

Definition isVowel (char : string) : bool :=
  Js.includes VOWELS (Js.toLowerCase char).

Definition isConsonant (char : string) : bool :=
  Js.includes CONSONANTS (Js.toLowerCase char).

Definition getPattern (word : string) : string :=
  Js.join (map (fun char => if isVowel char then "V" else "C") (Js.chars word)).

Definition matchesPattern (word pattern : string) : bool :=
  let wordPattern := getPattern word in
  if String.length wordPattern =? String.length pattern then
    String.eqb wordPattern pattern
  else if String.length pattern <? String.length wordPattern then
    Js.startsWith wordPattern pattern ||
    Js.endsWith wordPattern pattern ||
    Js.includes wordPattern pattern
  else
    Js.startsWith pattern wordPattern || Js.includes pattern wordPattern.

Definition hasGoodPronounceability (word : string) : bool :=
  let pattern := getPattern word in
  if Js.includes pattern "CCC" || Js.includes pattern "CCCC" then false
  else if Js.includes pattern "VVV" then false
  else if negb (Js.includes pattern "V") then false
  else if negb (Js.includes pattern "C") then false
  else true.

(** ** Pattern filter (lines 106-161) *)

Definition bestPatterns : gmap nat (list string) :=
  <[2 := ["CV"; "VC"]]>
  (<[3 := ["CVC"; "VCV"; "CVV"]]>
  (<[4 := ["CVCV"; "CVCC"; "VCVC"; "CVVC"]]>
  (<[5 := ["CVCVC"; "CVCCV"; "CVCVV"; "VCVCV"]]>
  (<[6 := ["CVCVCV"; "CVCCVC"; "CVCVCC"; "VCVCVC"]]>
  (<[7 := ["CVCVCVC"; "CVCCVCV"; "CVCVCCV"]]> ∅))))).

(** [bestPatterns[length] || []] *)
Definition getBestPatternsForLength (length : nat) : list string :=
  default [] (bestPatterns !! length).

(** The value of the local variable [patternsToMatch] of [filterByPattern]
    once it has been assigned: the table entry for ["auto"], the
    upper-cased tokens otherwise. *)
Definition patternsToMatch (numberOfLetters : nat) (patternFilter : string)
  : list string :=
  if String.eqb patternFilter "auto" then
    getBestPatternsForLength numberOfLetters
  else
    map (fun p => Js.toUpperCase (Js.trim p)) (Js.split "," patternFilter).

Definition filterByPattern (numberOfLetters : nat) (combos : list string)
    (patternFilter : string) : list string :=
  if String.eqb patternFilter "none" then combos
  else
    let patterns := patternsToMatch numberOfLetters patternFilter in
    if String.eqb patternFilter "auto" && (length patterns =? 0) then
      List.filter hasGoodPronounceability combos
    else
      List.filter
        (fun combo =>
           let matches :=
             existsb (fun pattern => matchesPattern combo pattern) patterns in
           matches && hasGoodPronounceability combo)
        combos.

(** ** Combination generator (lines 163-175) *)

Definition letters : string := "abcdefghijklmnopqrstuvwxyz".

(** The closure [recurse] pushes onto the array [results], which is
    threaded through the calls here.  The recursion is on [fuel]; [None]
    means that the fuel ran out before [depth] reached [length]. *)
Fixpoint recurse (length : nat) (fuel : nat) (prefix : string) (depth : nat)
    (results : list string) : option (list string) :=
  match fuel with
  | O => None
  | S fuel' =>
      if depth =? length then Some (results ++ [prefix])
      else
        fold_left
          (fun acc char =>
             match acc with
             | None => None
             | Some results' =>
                 recurse length fuel' (prefix +:+ char) (depth + 1) results'
             end)
          (Js.chars letters) (Some results)
  end.

Definition generateCombos (length : nat) : option (list string) :=
  recurse length (S length) "" 0 [].

(** ** Command line (lines 13-19) *)

Definition parseTlds (tldArg : string) : list string :=
  List.filter (fun t => negb (String.eqb t ""))
    (map Js.trim (Js.split "," tldArg)).

(** ** Registrar query (lines 230-248) *)

Record AvailabilityRecord := {
  domain : string;
  available : bool
}.

(** What reading a success body gives.  [Unreadable]: the body cannot be
    read, because [response.json()] rejects (not JSON) or because the
    value is [null], whose field [domains] cannot be read; either way
    [checkDomainsBatch] throws.  [JsonData]: the value has the field
    [domains] or has not; a field that is there is an array of records,
    as the registrar sends it, and bodies of another shape are outside
    the model. *)
Inductive JsonBody :=
| Unreadable
| JsonData (domains : option (list AvailabilityRecord)).

(** What awaiting [fetch] gives: the promise rejects (transport failure),
    or it resolves with a response that has an [ok] flag and a body. *)
Inductive FetchOutcome :=
| Rejected
| Response (ok : bool) (body : JsonBody).

(** The registrar answers the request with index [n] and body [batch]. *)
Definition Registrar := nat -> list string -> FetchOutcome.

(** Completion of an [async] function: a value, or a thrown exception. *)
Inductive Completion (A : Type) :=
| Normal (a : A)
| Throw.
Arguments Normal {A} a.
Arguments Throw {A}.

Definition checkDomainsBatch (fetch : list string -> FetchOutcome)
    (domains : list string) : Completion (list AvailabilityRecord) :=
  match fetch domains with
  | Rejected => Throw
  | Response false _ => Normal []
  | Response true Unreadable => Throw
  | Response true (JsonData data_domains) => Normal (default [] data_domains)
  end.

(** ** Main loop (lines 193-220 and 284-335) *)

Definition BATCH_SIZE : nat := 50.
Definition SAVE_INTERVAL : Z := 500.

(** A call of [appendDomainsToFile] that reaches [fs.appendFileSync]:
    from inside the batch loop, where the script also logs the checked
    count, or after the loop. *)
Inductive SaveEvent :=
| Saved (tld : string) (names : list string) (checkedCount : Z)
| SavedFinal (tld : string) (names : list string).

(** The objects shared by all TLD runs, and what went out of the process:
    the bodies of the requests and the appends, oldest first. *)
Record State := {
  availableByTld : gmap string (list string);
  domainCounters : gmap string Z;
  requests : list (list string);
  saves : list SaveEvent
}.

(** The variables declared per TLD run. *)
Record Locals := {
  pendingDomains : list string;
  lastSavedAt : Z
}.

Inductive Outcome (A : Type) :=
| Finished (a : A)
| Aborted (st : State)
| OutOfFuel.
Arguments Finished {A} a.
Arguments Aborted {A} st.
Arguments OutOfFuel {A}.

(** [appendDomainsToFile]: nothing is written for an empty array. *)
Definition appendDomainsToFile (ev : SaveEvent) (names : list string)
    (log : list SaveEvent) : list SaveEvent :=
  if length names =? 0 then log else log ++ [ev].

(** The loop over [results] (lines 296-304). *)
Definition collect (tld : string) (results : list AvailabilityRecord)
    (av : gmap string (list string)) (pending : list string)
  : gmap string (list string) * list string :=
  fold_left
    (fun acc res =>
       if available res then
         (<[tld := default [] (acc.1 !! tld) ++ [domain res]]> acc.1,
          acc.2 ++ [domain res])
       else acc)
    results (av, pending).

Definition shouldSave (checkedCount lastSaved : Z) (total : nat) : bool :=
  (SAVE_INTERVAL <=? checkedCount - lastSaved)%Z ||
  (checkedCount =? Z.of_nat total)%Z.

(** The body of the request of the iteration at index [i]. *)
Definition batchAt (combos : list string) (tld : string) (i : nat)
  : list string :=
  map (fun combo => combo +:+ tld) (Js.slice i (i + BATCH_SIZE) combos).

Definition withRequest (batch : list string) (st : State) : State :=
  {| availableByTld := availableByTld st;
     domainCounters := domainCounters st;
     requests := requests st ++ [batch];
     saves := saves st |}.

(** One iteration of the batch loop, from the slice to the save.  An
    exception of the query is not caught anywhere: it ends the run. *)
Definition processBatch (registrar : Registrar) (combos : list string)
    (tld : string) (i : nat) (loc : Locals) (st : State)
  : Outcome (Locals * State) :=
  let batch := batchAt combos tld i in
  let sent := withRequest batch st in
  match checkDomainsBatch (registrar (length (requests st))) batch with
  | Throw => Aborted sent
  | Normal results =>
      let '(av, pending) :=
        collect tld results (availableByTld st) (pendingDomains loc) in
      let counters :=
        <[tld := (default 0 (domainCounters st !! tld)
                  + Z.of_nat (length batch))%Z]> (domainCounters st) in
      let checkedCount := default 0%Z (counters !! tld) in
      if shouldSave checkedCount (lastSavedAt loc) (length combos)
         && (0 <? length pending) then
        Finished
          ({| pendingDomains := []; lastSavedAt := checkedCount |},
           {| availableByTld := av;
              domainCounters := counters;
              requests := requests sent;
              saves := appendDomainsToFile (Saved tld pending checkedCount)
                         pending (saves st) |})
      else
        Finished
          ({| pendingDomains := pending; lastSavedAt := lastSavedAt loc |},
           {| availableByTld := av;
              domainCounters := counters;
              requests := requests sent;
              saves := saves st |})
  end.

(** [for (let i = 0; i < combos.length; i += BATCH_SIZE)], from [i]. *)
Fixpoint batchLoop (fuel : nat) (registrar : Registrar)
    (combos : list string) (tld : string) (i : nat) (loc : Locals)
    (st : State) : Outcome (Locals * State) :=
  match fuel with
  | O => OutOfFuel
  | S fuel' =>
      if i <? length combos then
        match processBatch registrar combos tld i loc st with
        | Finished (loc', st') =>
            batchLoop fuel' registrar combos tld (i + BATCH_SIZE) loc' st'
        | Aborted st' => Aborted st'
        | OutOfFuel => OutOfFuel
        end
      else Finished (loc, st)
  end.

(** The body of the loop over the TLDs. *)
Definition checkTld (registrar : Registrar) (combos : list string)
    (tld : string) (st : State) : Outcome State :=
  match batchLoop (S (length combos)) registrar combos tld 0
          {| pendingDomains := []; lastSavedAt := 0 |} st with
  | Finished (loc, st') =>
      if 0 <? length (pendingDomains loc) then
        Finished
          {| availableByTld := availableByTld st';
             domainCounters := domainCounters st';
             requests := requests st';
             saves := appendDomainsToFile
                        (SavedFinal tld (pendingDomains loc))
                        (pendingDomains loc) (saves st') |}
      else Finished st'
  | Aborted st' => Aborted st'
  | OutOfFuel => OutOfFuel
  end.

Fixpoint tldLoop (registrar : Registrar) (combos : list string)
    (tlds : list string) (st : State) : Outcome State :=
  match tlds with
  | [] => Finished st
  | tld :: rest =>
      match checkTld registrar combos tld st with
      | Finished st' => tldLoop registrar combos rest st'
      | Aborted st' => Aborted st'
      | OutOfFuel => OutOfFuel
      end
  end.

(** [available[tld] = []] and [domainCounters[tld] = 0] for every TLD.
    A plain object does not store a number under the key [__proto__];
    the maps are the objects for every other key. *)
Definition initialState (tlds : list string) : State :=
  {| availableByTld := fold_left (fun m tld => <[tld := []]> m) tlds ∅;
     domainCounters := fold_left (fun m tld => <[tld := 0%Z]> m) tlds ∅;
     requests := [];
     saves := [] |}.

(** The script from line 177 on.  When it finishes, [availableByTld] is
    what goes to [available.json]. *)
Definition main (numberOfLetters : nat) (tlds : list string)
    (patternArg : string) (registrar : Registrar) : Outcome State :=
  match generateCombos numberOfLetters with
  | None => OutOfFuel
  | Some allCombos =>
      let combos := filterByPattern numberOfLetters allCombos patternArg in
      tldLoop registrar combos tlds (initialState tlds)
  end.

(** The state an outcome carries, when it carries one. *)
Definition lastState (o : Outcome State) : option State :=
  match o with
  | Finished st => Some st
  | Aborted st => Some st
  | OutOfFuel => None
  end.

(** ** Vocabulary of the statements *)

Definition isPrefixOf (p s : string) : Prop := exists t, s = p +:+ t.
Definition isSuffixOf (p s : string) : Prop := exists t, s = t +:+ p.
Definition occursIn (p s : string) : Prop := exists a b, s = a +:+ p +:+ b.

(** The shorter of the two strings occurs in the longer one. *)
Definition shorterOccursInLonger (s p : string) : Prop :=
  if String.length p <? String.length s then occursIn p s else occursIn s p.

(** [matchesPattern] with the ends-with test added to its last branch,
    the branch of a pattern longer than the word. *)
Definition matchesPatternSymmetric (word pattern : string) : bool :=
  let wordPattern := getPattern word in
  if String.length wordPattern =? String.length pattern then
    String.eqb wordPattern pattern
  else if String.length pattern <? String.length wordPattern then
    Js.startsWith wordPattern pattern ||
    Js.endsWith wordPattern pattern ||
    Js.includes wordPattern pattern
  else
    Js.startsWith pattern wordPattern ||
    Js.endsWith pattern wordPattern ||
    Js.includes pattern wordPattern.

(** Lowercase letters only. *)
Fixpoint allLowercase (s : string) : bool :=
  match s with
  | EmptyString => true
  | String c s' => Js.isLower c && allLowercase s'
  end.

(** All the words of [k] letters, grouped by first letter. *)
Fixpoint wordsOfLength (k : nat) : list string :=
  match k with
  | O => [""]
  | S k' =>
      flat_map (fun char => map (fun w => char +:+ w) (wordsOfLength k'))
        (Js.chars letters)
  end.

(** The order of [<] on strings: by character codes, a proper prefix
    first. *)
Definition lexLt (s t : string) : Prop := String.compare s t = Lt.

(** The names a response reports as available, in its order. *)
Definition availableNames (results : list AvailabilityRecord) : list string :=
  map domain (List.filter available results).

(** A name of a request is a combination followed by a TLD of the list. *)
Definition fromCombos (combos tlds : list string) (d : string) : Prop :=
  exists combo tld, d = combo +:+ tld /\ In combo combos /\ In tld tlds.

(** Every name of every request comes from [combos] and [tlds]. *)
Definition wellFormed (combos tlds : list string) (st : State) : Prop :=
  List.Forall (List.Forall (fromCombos combos tlds)) (requests st).

(** The requests an outcome carries. *)
Definition requestsOf (o : Outcome State) : list (list string) :=
  match lastState o with
  | Some st => requests st
  | None => []
  end.




(** A registrar that reports every name it is asked about as available,
    one that reports none, and one that cannot be reached. *)
Definition allAvailable : Registrar :=
  fun _ batch =>
    Response true
      (JsonData (Some (map (fun d => {| domain := d; available := true |})
                           batch))).

Definition noneAvailable : Registrar :=
  fun _ batch =>
    Response true
      (JsonData (Some (map (fun d => {| domain := d; available := false |})
                           batch))).



(** ** Files (lines 205-228 and 250-282) *)

Definition newline : string := String "010"%char EmptyString.

Definition DOMAINS_FOLDER : string := "domains".

(** [tld.replace(/^\./, "")]: one leading dot is dropped. *)
Definition tldName (tld : string) : string :=
  match tld with
  | String "."%char rest => rest
  | _ => tld
  end.

(** The name of a result file.  [stamp] stands for the
    year-month-day-hours-minutes-seconds part, which comes from the clock;
    the number of letters is printed in decimal. *)
Definition resultFileName (stamp : string) (numberOfLetters : nat)
    (tld : string) : string :=
  stamp +:+ "-available-"
  +:+ DecimalString.NilEmpty.string_of_uint (Nat.to_uint numberOfLetters)
  +:+ "-letter-" +:+ tldName tld +:+ ".txt".

(** [textFilePaths[tld]] as the initialisation loop sets it. *)
Definition textFilePath (stamp : string) (numberOfLetters : nat)
    (tld : string) : string :=
  DOMAINS_FOLDER +:+ "/" +:+ resultFileName stamp numberOfLetters tld.

(** The text [appendDomainsToFile] hands to [fs.appendFileSync]. *)
Definition appendContent (domains : list string) : string :=
  Js.joinWith newline domains +:+ newline.


(** ** Vocabulary of the further statements *)

(** A string of the letters C and V only. *)
Fixpoint allCV (s : string) : bool :=
  match s with
  | EmptyString => true
  | String c s' =>
      (Ascii.eqb c "C"%char || Ascii.eqb c "V"%char) && allCV s'
  end.

Definition isLetter (c : ascii) : bool := Js.isLower c || Js.isUpper c.

(** An ASCII character, a string of ASCII characters. *)
Definition isAsciiChar (c : ascii) : bool := nat_of_ascii c <? 128.

Fixpoint isAscii (s : string) : bool :=
  match s with
  | EmptyString => true
  | String c s' => isAsciiChar c && isAscii s'
  end.

Definition eventTld (ev : SaveEvent) : string :=
  match ev with
  | Saved tld _ _ => tld
  | SavedFinal tld _ => tld
  end.

Definition eventNames (ev : SaveEvent) : list string :=
  match ev with
  | Saved _ names _ => names
  | SavedFinal _ names => names
  end.

(** What a sequence of appends leaves in a file that was empty. *)
Definition appendedText (evs : list SaveEvent) : string :=
  Js.join (map (fun ev => appendContent (eventNames ev)) evs).

(** One line per name, each ended by a newline. *)
Definition linesOf (names : list string) : string :=
  Js.join (map (fun d => d +:+ newline) names).

(** The name [d] is reported as available in the response to one of the
    requests [reqs] of the run: the request with index [n], at least
    [first], whose body is the entry [n] of [reqs] and whose response is
    the one the registrar gives to request [n]. *)
Definition reportedBy (registrar : Registrar) (reqs : list (list string))
    (first : nat) (d : string) : Prop :=
  exists n batch results,
    first <= n /\
    reqs !! n = Some batch /\
    checkDomainsBatch (registrar n) batch = Normal results /\
    In d (availableNames results).

(** The names of the save events of a TLD, in order. *)
Definition savedNamesOf (tld : string) (evs : list SaveEvent) : list string :=
  concat (map eventNames
            (List.filter (fun ev => String.eqb (eventTld ev) tld) evs)).

(** No save event of the state is empty, and each is for a TLD of the
    list. *)
Definition savesWellFormed (tlds : list string) (st : State) : Prop :=
  List.Forall (fun ev => eventNames ev <> [] /\ In (eventTld ev) tlds)
    (saves st).

(** The two outputs agree: the names in [available] are, for every TLD,
    the names appended to the file of the TLD. *)
Definition outputsAgree (st : State) : Prop :=
  forall t, default [] (availableByTld st !! t) = savedNamesOf t (saves st).

(** The entries of the TLDs other than [tld] are in [st] as in [st0]. *)
Definition othersAsIn (tld : string) (st0 st : State) : Prop :=
  forall k, k <> tld ->
    availableByTld st !! k = availableByTld st0 !! k /\
    domainCounters st !! k = domainCounters st0 !! k.

(** A sample run of one TLD, for the instances below: two candidates,
    all available, on the second TLD of a list of two. *)
Definition sampleStart : State := initialState [".com"; ".io"].

Definition sampleEnd : State :=
  match checkTld allAvailable ["ab"; "ac"] ".io" sampleStart with
  | Finished st => st
  | _ => sampleStart
  end.

(** A sample run of the script: one letter, one TLD, no filter, every
    name available. *)
Definition sampleMain : State :=
  match main 1 [".com"] "none" allAvailable with
  | Finished st => st
  | _ => initialState []
  end.

(** The first character of the string, if any, is not white space. *)
Definition headNotSpace (s : string) : Prop :=
  match s with
  | EmptyString => True
  | String c _ => Js.isWhiteSpace c = false
  end.

(** The state of an outcome of the batch loop, when it carries one. *)
Definition loopState (o : Outcome (Locals * State)) : option State :=
  match o with
  | Finished (_, st) => Some st
  | Aborted st => Some st
  | OutOfFuel => None
  end.

(** Sanity checks on the values the specification quotes. *)

Example getPattern_cat : getPattern "cat" = "CVC".
Proof. reflexivity. Qed.

Example getPattern_aeiou : getPattern "aeiou" = "VVVVV".
Proof. reflexivity. Qed.

Example plausible_examples :
  hasGoodPronounceability "cat" = true /\
  hasGoodPronounceability "xyz" = false /\
  hasGoodPronounceability "aeiou" = false /\
  hasGoodPronounceability "ggg" = false.
Proof. repeat split; reflexivity. Qed.

Example matches_cats : matchesPattern "cats" "CVC" = true.
Proof. reflexivity. Qed.

Example filter_auto_2 :
  filterByPattern 2 ["be"; "ee"; "it"; "zz"] "auto" = ["be"; "it"].
Proof. vm_compute. reflexivity. Qed.

Example filter_explicit :
  filterByPattern 3 ["cat"; "ace"; "bee"] " cvc,vcv" = ["cat"; "ace"].
Proof. vm_compute. reflexivity. Qed.

Example generateCombos_1 :
  generateCombos 1 = Some (Js.chars letters).
Proof. vm_compute. reflexivity. Qed.

(** ** Strings *)

Section StringFacts.

Lemma append_nil_r (s : string) : s +:+ "" = s.
Proof.
  induction s as [|c s IH]; [reflexivity|].
  change (String c (s +:+ "") = String c s). now rewrite IH.
Qed.

Lemma append_cons (c : ascii) (s t : string) :
  String c s +:+ t = String c (s +:+ t).
Proof. reflexivity. Qed.

Lemma append_assoc (s t u : string) : (s +:+ t) +:+ u = s +:+ t +:+ u.
Proof.
  induction s as [|c s IH]; [reflexivity|].
  rewrite !append_cons. now rewrite IH.
Qed.

Lemma length_append (s t : string) :
  String.length (s +:+ t) = String.length s + String.length t.
Proof.
  induction s as [|c s IH]; [reflexivity|].
  rewrite append_cons. simpl. now rewrite IH.
Qed.

Lemma startsWith_spec (s p : string) :
  Js.startsWith s p = true <-> isPrefixOf p s.
Proof.
  revert s. induction p as [|b p IH]; intros s.
  - destruct s; simpl; (split; [intros _; eexists; reflexivity | reflexivity]).
  - destruct s as [|a s]; simpl.
    + split; [discriminate|]. intros [t Ht]. discriminate Ht.
    + rewrite andb_true_iff, Ascii.eqb_eq, IH. split.
      * intros [-> [t ->]]. exists t. reflexivity.
      * intros [t Ht]. rewrite append_cons in Ht.
        injection Ht as -> ->. split; [reflexivity | now exists t].
Qed.

Lemma includes_spec (s p : string) :
  Js.includes s p = true <-> occursIn p s.
Proof.
  induction s as [|c s IH].
  - cbn [Js.includes]. rewrite orb_false_r, startsWith_spec. split.
    + intros [t Ht]. exists "", t. exact Ht.
    + intros [a [b Hab]]. destruct a as [|x a]; [now exists b|].
      discriminate Hab.
  - cbn [Js.includes]. rewrite orb_true_iff, startsWith_spec, IH. split.
    + intros [[t Ht] | [a [b Hab]]].
      * exists "", t. exact Ht.
      * exists (String c a), b. rewrite append_cons. now rewrite Hab.
    + intros [a [b Hab]]. destruct a as [|x a].
      * left. now exists b.
      * right. rewrite append_cons in Hab. injection Hab as -> ->.
        now exists a, b.
Qed.

Lemma substringFrom_append (t p : string) :
  Js.substringFrom (String.length t) (t +:+ p) = p.
Proof.
  induction t as [|c t IH]; [now destruct p|].
  rewrite append_cons. simpl. exact IH.
Qed.

Lemma substringFrom_suffix (n : nat) (s : string) :
  isSuffixOf (Js.substringFrom n s) s.
Proof.
  revert s. induction n as [|n IH]; intros s.
  - exists "". now destruct s.
  - destruct s as [|c s]; [now exists ""|].
    simpl. destruct (IH s) as [t Ht]. exists (String c t).
    rewrite append_cons. now rewrite <- Ht.
Qed.

Lemma endsWith_spec (s p : string) :
  Js.endsWith s p = true <-> isSuffixOf p s.
Proof.
  unfold Js.endsWith. rewrite andb_true_iff, Nat.leb_le, String.eqb_eq.
  split.
  - intros [_ H]. rewrite <- H. apply substringFrom_suffix.
  - intros [t ->]. rewrite length_append. split; [lia|].
    replace (String.length t + String.length p - String.length p)
      with (String.length t) by lia.
    apply substringFrom_append.
Qed.

Lemma prefix_occurs (p s : string) : isPrefixOf p s -> occursIn p s.
Proof. intros [t Ht]. exists "", t. exact Ht. Qed.

Lemma suffix_occurs (p s : string) : isSuffixOf p s -> occursIn p s.
Proof.
  intros [t Ht]. exists t, "". now rewrite append_nil_r.
Qed.

End StringFacts.

(** ** Pattern classifier *)

(** C4. With S the signature of the word: for a pattern P of the same
    length, [matchesPattern] is equality of S and P; for a shorter P it
    holds exactly when S starts with, ends with or contains P; for a longer
    P it holds exactly when P starts with or contains S. *)
Theorem matchesPattern_branches (word P : string) :
  (String.length (getPattern word) = String.length P ->
     (matchesPattern word P = true <-> getPattern word = P)) /\
  (String.length P < String.length (getPattern word) ->
     (matchesPattern word P = true <->
        isPrefixOf P (getPattern word) \/
        isSuffixOf P (getPattern word) \/
        occursIn P (getPattern word))) /\
  (String.length P > String.length (getPattern word) ->
     (matchesPattern word P = true <->
        isPrefixOf (getPattern word) P \/ occursIn (getPattern word) P)).
Proof.
  unfold matchesPattern. set (S := getPattern word). repeat split.
  - rewrite H, Nat.eqb_refl. apply String.eqb_eq.
  - rewrite H, Nat.eqb_refl. intros ->. apply String.eqb_refl.
  - destruct (Nat.eqb_spec (String.length S) (String.length P)); [lia|].
    destruct (Nat.ltb_spec (String.length P) (String.length S)); [|lia].
    rewrite !orb_true_iff, !startsWith_spec, endsWith_spec, includes_spec.
    tauto.
  - destruct (Nat.eqb_spec (String.length S) (String.length P)); [lia|].
    destruct (Nat.ltb_spec (String.length P) (String.length S)); [|lia].
    rewrite !orb_true_iff, !startsWith_spec, endsWith_spec, includes_spec.
    tauto.
  - destruct (Nat.eqb_spec (String.length S) (String.length P)); [lia|].
    destruct (Nat.ltb_spec (String.length P) (String.length S)); [lia|].
    rewrite orb_true_iff, startsWith_spec, includes_spec. tauto.
  - destruct (Nat.eqb_spec (String.length S) (String.length P)); [lia|].
    destruct (Nat.ltb_spec (String.length P) (String.length S)); [lia|].
    rewrite orb_true_iff, startsWith_spec, includes_spec. tauto.
Qed.

Lemma matchesPattern_branches_witness :
  matchesPattern "cat" "CVC" = true /\
  matchesPattern "cats" "CVC" = true /\
  matchesPattern "at" "CVC" = true.
Proof.
  split; [|split].
  - apply (proj1 (matchesPattern_branches "cat" "CVC")); reflexivity.
  - apply (proj1 (proj2 (matchesPattern_branches "cats" "CVC"))).
    + vm_compute. lia.
    + left. exists "C". reflexivity.
  - apply (proj2 (proj2 (matchesPattern_branches "at" "CVC"))).
    + vm_compute. lia.
    + right. exists "C", "". reflexivity.
Defined.

(** C9. When the pattern and the signature of the word differ in length,
    [matchesPattern] holds exactly when the shorter of the two occurs in
    the longer one; and the ends-with test that the last branch lacks
    changes no result. *)
Theorem matchesPattern_unequal_lengths (word P : string) :
  (String.length P <> String.length (getPattern word) ->
     (matchesPattern word P = true <->
        shorterOccursInLonger (getPattern word) P)) /\
  matchesPatternSymmetric word P = matchesPattern word P.
Proof.
  unfold matchesPattern, matchesPatternSymmetric, shorterOccursInLonger.
  set (S := getPattern word). split.
  - intros Hne.
    destruct (Nat.eqb_spec (String.length S) (String.length P)); [lia|].
    destruct (String.length P <? String.length S).
    + rewrite !orb_true_iff, startsWith_spec, endsWith_spec, includes_spec.
      pose proof (prefix_occurs P S). pose proof (suffix_occurs P S). tauto.
    + rewrite orb_true_iff, startsWith_spec, includes_spec.
      pose proof (prefix_occurs S P). tauto.
  - destruct (String.length S =? String.length P); [reflexivity|].
    destruct (String.length P <? String.length S); [reflexivity|].
    destruct (Js.includes P S) eqn:Hin.
    + now rewrite !orb_true_r.
    + rewrite !orb_false_r.
      destruct (Js.endsWith P S) eqn:Hend; [|now rewrite orb_false_r].
      apply endsWith_spec, suffix_occurs, includes_spec in Hend. congruence.
Qed.

Lemma matchesPattern_unequal_lengths_witness :
  matchesPattern "at" "CVC" = true <-> shorterOccursInLonger "VC" "CVC".
Proof.
  apply (proj1 (matchesPattern_unequal_lengths "at" "CVC")).
  vm_compute. lia.
Defined.

Lemma hasGoodPronounceability_single (word : string) :
  String.length word = 1 -> hasGoodPronounceability word = false.
Proof.
  destruct word as [|c [|d word]]; simpl; try discriminate. intros _.
  unfold hasGoodPronounceability, getPattern.
  cbn [Js.chars map Js.join fold_right].
  destruct (isVowel (String c "")); reflexivity.
Qed.

(** ** Pattern filter *)

Lemma bestPatterns_outside (n : nat) :
  n < 2 \/ 7 < n -> bestPatterns !! n = None.
Proof.
  intros H. unfold bestPatterns.
  repeat (rewrite lookup_insert_ne by lia). apply lookup_empty.
Qed.

Lemma bestPatterns_inside (n : nat) :
  2 <= n <= 7 ->
  n = 2 \/ n = 3 \/ n = 4 \/ n = 5 \/ n = 6 \/ n = 7.
Proof. lia. Qed.

(** C6, as the table has it. The table has an entry for every length from
    2 through 7; length 2 has the two signatures CV and VC, length 3 has
    CVC, VCV and CVV, every length from 3 through 7 has three or four
    signatures; every other length yields the empty sequence. *)
Theorem getBestPatternsForLength_table :
  (forall n, 2 <= n <= 7 -> is_Some (bestPatterns !! n)) /\
  getBestPatternsForLength 2 = ["CV"; "VC"] /\
  getBestPatternsForLength 3 = ["CVC"; "VCV"; "CVV"] /\
  (forall n, 3 <= n <= 7 ->
     3 <= length (getBestPatternsForLength n) <= 4) /\
  (forall n, n < 2 \/ 7 < n ->
     bestPatterns !! n = None /\ getBestPatternsForLength n = []).
Proof.
  split; [|split; [reflexivity|split; [reflexivity|split]]].
  - intros n Hn.
    destruct (bestPatterns_inside n Hn) as [->|[->|[->|[->|[->| ->]]]]];
      vm_compute; eauto.
  - intros n Hn.
    assert (Hin : 2 <= n <= 7) by lia.
    destruct (bestPatterns_inside n Hin) as [->|[->|[->|[->|[->| ->]]]]];
      try lia; vm_compute; lia.
  - intros n Hn. unfold getBestPatternsForLength.
    rewrite (bestPatterns_outside n Hn). split; reflexivity.
Qed.

Lemma getBestPatternsForLength_table_witness :
  3 <= length (getBestPatternsForLength 4) <= 4 /\
  getBestPatternsForLength 8 = [].
Proof.
  split.
  - apply (proj1 (proj2 (proj2 (proj2 getBestPatternsForLength_table)))). lia.
  - apply (proj2 (proj2 (proj2 (proj2 getBestPatternsForLength_table)))). lia.
Defined.

(** C6 as stated fails at length 2, which has two signatures. *)
Lemma getBestPatternsForLength_two_signatures :
  ~ (forall n, 2 <= n <= 7 ->
       3 <= length (getBestPatternsForLength n) <= 4).
Proof.
  intros H. specialize (H 2). vm_compute in H. lia.
Qed.

(** C8. With the pattern "none" the filter returns the array it was given,
    whatever the array and the number of letters. *)
Theorem filterByPattern_none (numberOfLetters : nat) (combos : list string) :
  filterByPattern numberOfLetters combos "none" = combos.
Proof. reflexivity. Qed.

Lemma filterByPattern_sound (n : nat) (combos : list string)
    (patternFilter combo : string) :
  patternFilter <> "none" ->
  In combo (filterByPattern n combos patternFilter) ->
  In combo combos /\
  hasGoodPronounceability combo = true /\
  (patternFilter <> "auto" \/ getBestPatternsForLength n <> [] ->
   exists pattern,
     In pattern (patternsToMatch n patternFilter) /\
     matchesPattern combo pattern = true).
Proof.
  intros Hnone. unfold filterByPattern.
  destruct (String.eqb_spec patternFilter "none") as [|_]; [contradiction|].
  cbv zeta.
  destruct (String.eqb_spec patternFilter "auto") as [Hauto|Hauto]; simpl.
  - destruct (Nat.eqb_spec (length (patternsToMatch n patternFilter)) 0)
      as [Hlen|Hlen].
    + rewrite filter_In. intros [Hin Hgood]. repeat split; try assumption.
      intros [Hne|Hne]; [contradiction|]. exfalso. apply Hne.
      unfold patternsToMatch in Hlen. subst patternFilter. simpl in Hlen.
      now destruct (getBestPatternsForLength n).
    + rewrite filter_In, andb_true_iff, existsb_exists.
      intros [Hin [Hex Hgood]]. repeat split; try assumption. intros _.
      exact Hex.
  - rewrite filter_In, andb_true_iff, existsb_exists.
    intros [Hin [Hex Hgood]]. repeat split; try assumption. intros _.
    exact Hex.
Qed.

(** ** Combination generator *)

Section Generator.

Variable length : nat.

(** The loop over the letters, given what each call does. *)
Lemma recurse_letters (fuel : nat) (prefix : string) (depth : nat)
    (g : string -> list string) (cs : list string) (results : list string) :
  (forall char results',
     recurse length fuel (prefix +:+ char) (depth + 1) results'
     = Some (results' ++ g char)) ->
  fold_left
    (fun acc char =>
       match acc with
       | None => None
       | Some results' =>
           recurse length fuel (prefix +:+ char) (depth + 1) results'
       end)
    cs (Some results)
  = Some (results ++ flat_map g cs).
Proof.
  intros Hcall. revert results.
  induction cs as [|c cs IH]; intros results; simpl.
  - now rewrite app_nil_r.
  - rewrite Hcall, IH. now rewrite <- app_assoc.
Qed.

Lemma recurse_spec (fuel : nat) :
  forall (prefix : string) (depth : nat) (results : list string),
    depth <= length -> length - depth < fuel ->
    recurse length fuel prefix depth results
    = Some (results ++
            map (fun w => prefix +:+ w) (wordsOfLength (length - depth))).
Proof.
  induction fuel as [|fuel IH]; intros prefix depth results Hle Hfuel;
    [lia|].
  cbn [recurse]. destruct (Nat.eqb_spec depth length) as [->|Hne].
  - rewrite Nat.sub_diag. simpl. now rewrite append_nil_r.
  - replace (length - depth) with (S (length - (depth + 1))) by lia.
    rewrite (recurse_letters fuel prefix depth
               (fun char =>
                  map (fun w => (prefix +:+ char) +:+ w)
                    (wordsOfLength (length - (depth + 1))))).
    + f_equal. f_equal. cbn [wordsOfLength].
      induction (Js.chars letters) as [|c cs IHcs]; [reflexivity|].
      cbn [flat_map]. rewrite map_app, map_map, IHcs. f_equal.
      apply map_ext. intros w. apply append_assoc.
    + intros char results'. apply IH; lia.
Qed.

End Generator.

Lemma generateCombos_spec (length : nat) :
  generateCombos length = Some (wordsOfLength length).
Proof.
  unfold generateCombos. rewrite recurse_spec by lia.
  rewrite Nat.sub_0_r. simpl. f_equal. apply map_id.
Qed.

Lemma wordsOfLength_by_ascii (k : nat) :
  wordsOfLength (S k)
  = flat_map (fun a => map (String a) (wordsOfLength k))
      (list_ascii_of_string letters).
Proof.
  cbn [wordsOfLength]. induction letters as [|a s IH]; [reflexivity|].
  cbn [Js.chars list_ascii_of_string flat_map]. now rewrite IH.
Qed.

Lemma length_wordsOfLength (k : nat) : length (wordsOfLength k) = 26 ^ k.
Proof.
  induction k as [|k IH]; [reflexivity|].
  rewrite wordsOfLength_by_ascii.
  assert (H : forall cs : list ascii,
             length (flat_map (fun a => map (String a) (wordsOfLength k)) cs)
             = length cs * 26 ^ k).
  { induction cs as [|c cs IHcs]; [reflexivity|].
    cbn [flat_map]. rewrite List.length_app, List.length_map, IHcs, IH.
    simpl. lia. }
  rewrite H. change (26 ^ S k) with (26 * 26 ^ k). reflexivity.
Qed.

Lemma letters_lowercase :
  Forall (fun a => Js.isLower a = true) (list_ascii_of_string letters).
Proof. repeat constructor. Qed.

Lemma wordsOfLength_shape (k : nat) :
  Forall (fun w => String.length w = k /\ allLowercase w = true)
    (wordsOfLength k).
Proof.
  induction k as [|k IH]; [repeat constructor|].
  rewrite wordsOfLength_by_ascii. apply List.Forall_flat_map.
  eapply List.Forall_impl; [|exact letters_lowercase].
  intros a Ha. apply List.Forall_map.
  eapply List.Forall_impl; [|exact IH].
  intros w [Hlen Hlow]. simpl. rewrite Ha, Hlow, Hlen. split; reflexivity.
Qed.

Lemma letters_increasing :
  StronglySorted (fun a b => Ascii.compare a b = Lt)
    (list_ascii_of_string letters).
Proof. repeat constructor. Qed.

Lemma StronglySorted_append {A} (R : A -> A -> Prop) (l1 l2 : list A) :
  StronglySorted R l1 -> StronglySorted R l2 ->
  (forall x y, In x l1 -> In y l2 -> R x y) ->
  StronglySorted R (l1 ++ l2).
Proof.
  intros H1 H2 Hcross. induction H1 as [|x l1 Hs IH Hall]; [exact H2|].
  simpl. constructor.
  - apply IH. intros a b Ha Hb. apply Hcross; [now right | exact Hb].
  - apply List.Forall_app. split; [exact Hall|].
    apply List.Forall_forall. intros y Hy. apply Hcross; [now left | exact Hy].
Qed.

Lemma lexLt_same_head (a : ascii) (s t : string) :
  lexLt s t -> lexLt (String a s) (String a t).
Proof.
  unfold lexLt. simpl. unfold Ascii.compare. now rewrite N.compare_refl.
Qed.

Lemma lexLt_head (a b : ascii) (s t : string) :
  Ascii.compare a b = Lt -> lexLt (String a s) (String b t).
Proof. unfold lexLt. simpl. now intros ->. Qed.

Lemma lexLt_irrefl (s : string) : ~ lexLt s s.
Proof.
  unfold lexLt. induction s as [|a s IH]; simpl; [discriminate|].
  unfold Ascii.compare. now rewrite N.compare_refl.
Qed.

Lemma wordsOfLength_sorted (k : nat) : StronglySorted lexLt (wordsOfLength k).
Proof.
  induction k as [|k IH]; [repeat constructor|].
  rewrite wordsOfLength_by_ascii.
  pose proof letters_increasing as Hinc.
  induction Hinc as [|a cs Hs IHcs Hall]; [constructor|].
  cbn [flat_map]. apply StronglySorted_append.
  - clear -IH. induction IH as [|w ws Hws IHws Hw]; [constructor|].
    simpl. constructor; [exact IHws|].
    apply List.Forall_map. eapply List.Forall_impl; [|exact Hw].
    intros t Ht. now apply lexLt_same_head.
  - exact IHcs.
  - intros x y Hx Hy.
    apply in_map_iff in Hx as [w [<- _]].
    apply in_flat_map in Hy as [b [Hb Hy]].
    apply in_map_iff in Hy as [t [<- _]].
    apply lexLt_head. rewrite List.Forall_forall in Hall. now apply Hall.
Qed.

Lemma StronglySorted_NoDup {A} (R : A -> A -> Prop) (l : list A) :
  (forall x, ~ R x x) -> StronglySorted R l -> List.NoDup l.
Proof.
  intros Hirr Hs. induction Hs as [|x l Hs IH Hall]; constructor.
  - intros Hin. rewrite List.Forall_forall in Hall.
    exact (Hirr x (Hall x Hin)).
  - exact IH.
Qed.

(** C2. For every length L of at least one letter the generator returns,
    and what it returns has 26^L strings, no two equal, each of L
    lowercase letters, in strictly increasing lexicographic order. *)
Theorem generateCombos_complete (L : nat) :
  1 <= L ->
  exists combos,
    generateCombos L = Some combos /\
    length combos = 26 ^ L /\
    List.NoDup combos /\
    Forall (fun w => String.length w = L /\ allLowercase w = true) combos /\
    StronglySorted lexLt combos.
Proof.
  intros _. exists (wordsOfLength L). split; [apply generateCombos_spec|].
  split; [apply length_wordsOfLength|].
  split; [|split; [apply wordsOfLength_shape | apply wordsOfLength_sorted]].
  apply (StronglySorted_NoDup lexLt); [apply lexLt_irrefl|].
  apply wordsOfLength_sorted.
Qed.

Lemma generateCombos_complete_witness :
  exists combos,
    generateCombos 2 = Some combos /\
    length combos = 26 ^ 2 /\
    List.NoDup combos /\
    Forall (fun w => String.length w = 2 /\ allLowercase w = true) combos /\
    StronglySorted lexLt combos.
Proof. apply (generateCombos_complete 2). lia. Defined.

(** ** Registrar query and batch loop *)

Lemma collect_pending (tld : string) (results : list AvailabilityRecord) :
  forall av pending,
    (collect tld results av pending).2 = pending ++ availableNames results.
Proof.
  unfold collect, availableNames.
  induction results as [|r rs IH]; intros av pending; simpl.
  - now rewrite app_nil_r.
  - destruct (available r); simpl.
    + rewrite IH. now rewrite <- app_assoc.
    + apply IH.
Qed.

Lemma In_slice {A} (i j : nat) (a : list A) (x : A) :
  In x (Js.slice i j a) -> In x a.
Proof.
  unfold Js.slice. intros H.
  rewrite <- (firstn_skipn i a). apply in_or_app. right.
  rewrite <- (firstn_skipn (j - i) (skipn i a)). apply in_or_app. now left.
Qed.

Lemma length_batchAt (combos : list string) (tld : string) (i : nat) :
  length (batchAt combos tld i) = Nat.min BATCH_SIZE (length combos - i).
Proof.
  unfold batchAt, Js.slice.
  rewrite List.length_map, List.length_firstn, List.length_skipn.
  replace (i + BATCH_SIZE - i) with BATCH_SIZE by lia. reflexivity.
Qed.


Lemma batchAt_fromCombos (combos tlds : list string) (tld : string) (i : nat) :
  In tld tlds -> List.Forall (fromCombos combos tlds) (batchAt combos tld i).
Proof.
  intros Htld. apply List.Forall_forall. intros d Hd.
  apply in_map_iff in Hd as [combo [<- Hin]].
  exists combo, tld. split; [reflexivity|]. split; [|exact Htld].
  eapply In_slice. exact Hin.
Qed.

Section Batch.

Variable registrar : Registrar.
Variable combos : list string.
Variable tld : string.

(** What an iteration gives when its query returns. *)
Lemma processBatch_Normal (i : nat) (loc : Locals) (st : State)
    (results : list AvailabilityRecord) :
  checkDomainsBatch (registrar (length (requests st))) (batchAt combos tld i)
  = Normal results ->
  let pending := pendingDomains loc ++ availableNames results in
  let checkedCount :=
    (default 0 (domainCounters st !! tld)
     + Z.of_nat (length (batchAt combos tld i)))%Z in
  let st' saved :=
    {| availableByTld :=
         (collect tld results (availableByTld st) (pendingDomains loc)).1;
       domainCounters := <[tld := checkedCount]> (domainCounters st);
       requests := requests st ++ [batchAt combos tld i];
       saves := saved |} in
  processBatch registrar combos tld i loc st
  = if shouldSave checkedCount (lastSavedAt loc) (length combos)
       && (0 <? length pending)
    then Finished ({| pendingDomains := []; lastSavedAt := checkedCount |},
                   st' (saves st ++ [Saved tld pending checkedCount]))
    else Finished ({| pendingDomains := pending;
                      lastSavedAt := lastSavedAt loc |},
                   st' (saves st)).
Proof.
  intros Hq. unfold processBatch. cbv zeta. rewrite Hq.
  pose proof (collect_pending tld results (availableByTld st)
                (pendingDomains loc)) as Hp.
  destruct (collect tld results (availableByTld st) (pendingDomains loc))
    as [av pending] eqn:Hc.
  simpl in Hp. subst pending. simpl. rewrite lookup_insert_eq. simpl.
  destruct (shouldSave _ _ _); simpl; [|reflexivity].
  destruct (pendingDomains loc ++ availableNames results) eqn:Hpend;
    reflexivity.
Qed.

Lemma processBatch_Throw (i : nat) (loc : Locals) (st : State) :
  checkDomainsBatch (registrar (length (requests st))) (batchAt combos tld i)
  = Throw ->
  processBatch registrar combos tld i loc st
  = Aborted (withRequest (batchAt combos tld i) st).
Proof. intros Hq. unfold processBatch. cbv zeta. now rewrite Hq. Qed.

End Batch.

Section Loop.

Variable registrar : Registrar.
Variable combos : list string.
Variable tld : string.

Lemma batchLoop_step (fuel i : nat) (loc : Locals) (st : State) :
  i < length combos ->
  batchLoop (S fuel) registrar combos tld i loc st
  = match processBatch registrar combos tld i loc st with
    | Finished (loc', st') =>
        batchLoop fuel registrar combos tld (i + BATCH_SIZE) loc' st'
    | Aborted st' => Aborted st'
    | OutOfFuel => OutOfFuel
    end.
Proof.
  intros Hi. cbn [batchLoop].
  destruct (Nat.ltb_spec i (length combos)); [reflexivity | lia].
Qed.

Lemma batchLoop_done (fuel i : nat) (loc : Locals) (st : State) :
  length combos <= i ->
  batchLoop (S fuel) registrar combos tld i loc st = Finished (loc, st).
Proof.
  intros Hi. cbn [batchLoop].
  destruct (Nat.ltb_spec i (length combos)); [lia | reflexivity].
Qed.

(** An iteration adds its request, whether the query returns or not. *)
Lemma processBatch_requests (i : nat) (loc : Locals) (st : State) :
  match processBatch registrar combos tld i loc st with
  | Finished (_, st') => requests st' = requests st ++ [batchAt combos tld i]
  | Aborted st' => requests st' = requests st ++ [batchAt combos tld i]
  | OutOfFuel => False
  end.
Proof.
  destruct (checkDomainsBatch (registrar (length (requests st)))
              (batchAt combos tld i)) as [results|] eqn:Hq.
  - rewrite (processBatch_Normal _ _ _ _ _ _ _ Hq). cbv zeta.
    destruct (_ && _); reflexivity.
  - rewrite (processBatch_Throw _ _ _ _ _ _ Hq). reflexivity.
Qed.

(** A property of the state that every iteration keeps holds when the
    loop ends, however it ends. *)
Lemma batchLoop_preserves (P : State -> Prop) :
  (forall i loc st, i < length combos -> P st ->
     match processBatch registrar combos tld i loc st with
     | Finished (_, st') => P st'
     | Aborted st' => P st'
     | OutOfFuel => True
     end) ->
  forall fuel i loc st, P st ->
    match batchLoop fuel registrar combos tld i loc st with
    | Finished (_, st') => P st'
    | Aborted st' => P st'
    | OutOfFuel => True
    end.
Proof.
  intros Hstep. induction fuel as [|fuel IH]; intros i loc st HP; [exact I|].
  destruct (Nat.lt_ge_cases i (length combos)) as [Hi|Hi].
  - rewrite batchLoop_step by exact Hi.
    specialize (Hstep i loc st Hi HP).
    destruct (processBatch registrar combos tld i loc st)
      as [[loc' st']|st'|]; [|exact Hstep|exact I].
    apply IH. exact Hstep.
  - rewrite batchLoop_done by exact Hi. exact HP.
Qed.

(** The fuel [checkTld] gives is enough. *)
Lemma batchLoop_fuel (fuel : nat) :
  forall i loc st, length combos - i < fuel ->
    batchLoop fuel registrar combos tld i loc st <> OutOfFuel.
Proof.
  induction fuel as [|fuel IH]; intros i loc st Hfuel; [lia|].
  destruct (Nat.lt_ge_cases i (length combos)) as [Hi|Hi].
  - rewrite batchLoop_step by exact Hi.
    pose proof (processBatch_requests i loc st) as Hr.
    destruct (processBatch registrar combos tld i loc st)
      as [[loc' st']|st'|]; [|discriminate|contradiction].
    apply IH. unfold BATCH_SIZE. lia.
  - rewrite batchLoop_done by exact Hi. discriminate.
Qed.

(** When the counter of the TLD agrees with the index of the loop, it
    ends at the number of combinations, and nothing is left pending. *)
Lemma batchLoop_in_sync (fuel : nat) :
  forall i loc st loc' st',
    domainCounters st !! tld
    = Some (Z.of_nat (Nat.min i (length combos))) ->
    pendingDomains loc = [] \/ i < length combos ->
    batchLoop fuel registrar combos tld i loc st = Finished (loc', st') ->
    domainCounters st' !! tld = Some (Z.of_nat (length combos)) /\
    pendingDomains loc' = [].
Proof.
  induction fuel as [|fuel IH]; intros i loc st loc' st' Hc Hp Hrun;
    [discriminate|].
  destruct (Nat.lt_ge_cases i (length combos)) as [Hi|Hi].
  - rewrite batchLoop_step in Hrun by exact Hi.
    destruct (checkDomainsBatch (registrar (length (requests st)))
                (batchAt combos tld i)) as [results|] eqn:Hq.
    + rewrite (processBatch_Normal _ _ _ _ _ _ _ Hq) in Hrun.
      cbv zeta in Hrun. rewrite Hc, length_batchAt in Hrun.
      simpl default in Hrun.
      replace (Z.of_nat (Nat.min i (length combos))
               + Z.of_nat (Nat.min BATCH_SIZE (length combos - i)))%Z
        with (Z.of_nat (Nat.min (i + BATCH_SIZE) (length combos)))
        in Hrun by lia.
      destruct (shouldSave _ _ _ && _) eqn:Hsave.
      * eapply IH; [| |exact Hrun]; simpl.
        -- apply lookup_insert_eq.
        -- now left.
      * eapply IH; [| |exact Hrun]; simpl.
        -- apply lookup_insert_eq.
        -- destruct (Nat.lt_ge_cases (i + BATCH_SIZE) (length combos))
             as [Hnext|Hnext]; [now right|left].
           apply andb_false_iff in Hsave as [Hsave|Hsave].
           ++ unfold shouldSave in Hsave.
              apply orb_false_iff in Hsave as [_ Hsave].
              apply Z.eqb_neq in Hsave. lia.
           ++ destruct (pendingDomains loc ++ availableNames results);
                [reflexivity|discriminate].
    + rewrite (processBatch_Throw _ _ _ _ _ _ Hq) in Hrun. discriminate.
  - rewrite batchLoop_done in Hrun by exact Hi.
    injection Hrun as <- <-. rewrite Nat.min_r in Hc by lia.
    split; [exact Hc|]. destruct Hp as [Hp|Hp]; [exact Hp|lia].
Qed.

(** An iteration whose query returns adds the length of its batch to the
    counter of the TLD. *)
Lemma processBatch_counter (i : nat) (loc loc' : Locals) (st st' : State) :
  processBatch registrar combos tld i loc st = Finished (loc', st') ->
  domainCounters st' !! tld
  = Some (default 0 (domainCounters st !! tld)
          + Z.of_nat (Nat.min BATCH_SIZE (length combos - i)))%Z.
Proof.
  destruct (checkDomainsBatch (registrar (length (requests st)))
              (batchAt combos tld i)) as [results|] eqn:Hq.
  - rewrite (processBatch_Normal _ _ _ _ _ _ _ Hq). cbv zeta.
    rewrite length_batchAt.
    destruct (_ && _); intros H; injection H as <- <-; simpl;
      apply lookup_insert_eq.
  - rewrite (processBatch_Throw _ _ _ _ _ _ Hq). discriminate.
Qed.


End Loop.

(** ** The run over the TLDs *)

Section Run.

Variable registrar : Registrar.
Variable combos : list string.

Lemma processBatch_wellFormed (tlds : list string) (tld : string)
    (i : nat) (loc : Locals) (st : State) :
  In tld tlds -> wellFormed combos tlds st ->
  match processBatch registrar combos tld i loc st with
  | Finished (_, st') => wellFormed combos tlds st'
  | Aborted st' => wellFormed combos tlds st'
  | OutOfFuel => True
  end.
Proof.
  intros Htld Hst.
  assert (Hnew : List.Forall (List.Forall (fromCombos combos tlds))
                   (requests st ++ [batchAt combos tld i])).
  { apply List.Forall_app. split; [exact Hst|].
    constructor; [|constructor]. now apply batchAt_fromCombos. }
  pose proof (processBatch_requests registrar combos tld i loc st) as Hr.
  destruct (processBatch registrar combos tld i loc st)
    as [[loc' st']|st'|]; [| |exact I];
    unfold wellFormed; now rewrite Hr.
Qed.

Lemma checkTld_wellFormed (tlds : list string) (tld : string) (st : State) :
  In tld tlds -> wellFormed combos tlds st ->
  match checkTld registrar combos tld st with
  | Finished st' => wellFormed combos tlds st'
  | Aborted st' => wellFormed combos tlds st'
  | OutOfFuel => True
  end.
Proof.
  intros Htld Hst. unfold checkTld.
  pose proof (batchLoop_preserves registrar combos tld (wellFormed combos tlds)
                (fun i loc st0 _ H0 =>
                   processBatch_wellFormed tlds tld i loc st0 Htld H0)
                (S (length combos)) 0
                {| pendingDomains := []; lastSavedAt := 0 |} st Hst)
    as Hinv.
  destruct (batchLoop _ _ _ _ _ _ _) as [[loc' st']|st'|]; try exact Hinv.
  destruct (0 <? length (pendingDomains loc')); exact Hinv.
Qed.

Lemma tldLoop_wellFormed (tlds : list string) :
  forall rest st,
    incl rest tlds -> wellFormed combos tlds st ->
    List.Forall (List.Forall (fromCombos combos tlds))
      (requestsOf (tldLoop registrar combos rest st)).
Proof.
  induction rest as [|tld rest IH]; intros st Hincl Hst; [exact Hst|].
  cbn [tldLoop].
  pose proof (checkTld_wellFormed tlds tld st
                (Hincl tld (or_introl eq_refl)) Hst) as Hc.
  destruct (checkTld registrar combos tld st) as [st'|st'|].
  - apply IH; [|exact Hc]. intros x Hx. apply Hincl. now right.
  - exact Hc.
  - constructor.
Qed.

(** The run of a TLD whose counter is at zero ends with the counter at
    the number of combinations. *)
Lemma checkTld_counter (tld : string) (st st' : State) :
  domainCounters st !! tld = Some 0%Z ->
  checkTld registrar combos tld st = Finished st' ->
  domainCounters st' !! tld = Some (Z.of_nat (length combos)).
Proof.
  intros Hzero. unfold checkTld.
  destruct (batchLoop (S (length combos)) registrar combos tld 0
              {| pendingDomains := []; lastSavedAt := 0 |} st)
    as [[loc1 st1]|st1|] eqn:Hrun; try discriminate.
  destruct (batchLoop_in_sync registrar combos tld (S (length combos)) 0
              {| pendingDomains := []; lastSavedAt := 0 |} st loc1 st1)
    as [Hc Hp]; [exact Hzero | now left | exact Hrun |].
  rewrite Hp. simpl. now intros [= <-].
Qed.

End Run.

Lemma tldLoop_no_combos (registrar : Registrar) (tlds : list string) :
  forall st, tldLoop registrar [] tlds st = Finished st.
Proof.
  induction tlds as [|tld rest IH]; intros st; [reflexivity|].
  cbn [tldLoop]. unfold checkTld. simpl. apply IH.
Qed.


(** ** The claims about the run *)

(** C1. For a pattern other than "none", every name of every request that
    the run sends to the registrar is a combination followed by one of the
    TLDs, a combination that is pronounceable and, when the pattern names
    signatures or "auto" finds an entry in the table, matches one of the
    signatures in force. *)
Theorem checker_receives_filtered (numberOfLetters : nat)
    (tlds : list string) (patternArg : string) (registrar : Registrar)
    (batch : list string) (d : string) :
  patternArg <> "none" ->
  In batch (requestsOf (main numberOfLetters tlds patternArg registrar)) ->
  In d batch ->
  exists combo tld,
    d = combo +:+ tld /\ In tld tlds /\
    hasGoodPronounceability combo = true /\
    (patternArg <> "auto" \/ getBestPatternsForLength numberOfLetters <> [] ->
     exists pattern,
       In pattern (patternsToMatch numberOfLetters patternArg) /\
       matchesPattern combo pattern = true).
Proof.
  intros Hnone Hbatch Hd. unfold main in Hbatch.
  rewrite generateCombos_spec in Hbatch.
  pose proof (tldLoop_wellFormed registrar
                (filterByPattern numberOfLetters
                   (wordsOfLength numberOfLetters) patternArg)
                tlds tlds (initialState tlds) (incl_refl tlds)
                (List.Forall_nil _)) as Hall.
  rewrite List.Forall_forall in Hall. specialize (Hall batch Hbatch).
  rewrite List.Forall_forall in Hall.
  destruct (Hall d Hd) as [combo [tld [-> [Hcombo Htld]]]].
  exists combo, tld. split; [reflexivity|]. split; [exact Htld|].
  destruct (filterByPattern_sound _ _ _ _ Hnone Hcombo) as [_ [Hgood Hmatch]].
  split; assumption.
Qed.

Lemma checker_receives_filtered_witness :
  exists combo tld,
    "ab.com" = combo +:+ tld /\ In tld [".com"] /\
    hasGoodPronounceability combo = true /\
    ("auto" <> "auto" \/ getBestPatternsForLength 2 <> [] ->
     exists pattern,
       In pattern (patternsToMatch 2 "auto") /\
       matchesPattern combo pattern = true).
Proof.
  apply (checker_receives_filtered 2 [".com"] "auto" noneAvailable
           (batchAt (filterByPattern 2 (wordsOfLength 2) "auto") ".com" 0)).
  - discriminate.
  - vm_compute. left. reflexivity.
  - vm_compute. left. reflexivity.
Defined.







(** C7 at the TLD list [.com,.com]: the second run of [.com] starts from
    the counter the first run left, so after its only batch, and at its
    end, the counter is 52 for 26 combinations. *)
Theorem duplicate_tld_counter :
  length (filterByPattern 1 (wordsOfLength 1) "none") = 26 /\
  parseTlds ".com,.com" = [".com"; ".com"] /\
  exists st,
    main 1 [".com"; ".com"] "none" allAvailable = Finished st /\
    domainCounters st !! ".com" = Some 52%Z.
Proof.
  split; [reflexivity|]. split; [vm_compute; reflexivity|].
  eexists. split; vm_compute; reflexivity.
Qed.

(** C10. With one letter and the pattern "auto" the table has no entry,
    no one-character word is pronounceable, the filter returns nothing,
    and the run sends no request at all. *)
Theorem single_letter_auto_checks_nothing :
  getBestPatternsForLength 1 = [] /\
  (forall word,
     String.length word = 1 -> hasGoodPronounceability word = false) /\
  (forall combos,
     List.Forall (fun w => String.length w = 1) combos ->
     filterByPattern 1 combos "auto" = []) /\
  (exists allCombos,
     generateCombos 1 = Some allCombos /\
     filterByPattern 1 allCombos "auto" = []) /\
  (forall tlds registrar,
     exists st,
       main 1 tlds "auto" registrar = Finished st /\ requests st = []).
Proof.
  assert (Hfilter : forall combos,
             List.Forall (fun w => String.length w = 1) combos ->
             filterByPattern 1 combos "auto" = []).
  { intros combos Hall. unfold filterByPattern. simpl.
    induction Hall as [|w ws Hw _ IH]; [reflexivity|].
    simpl. now rewrite (hasGoodPronounceability_single w Hw). }
  assert (Hone : List.Forall (fun w => String.length w = 1) (wordsOfLength 1)).
  { eapply List.Forall_impl; [|apply wordsOfLength_shape]. now intros w [H _]. }
  split; [reflexivity|]. split; [exact hasGoodPronounceability_single|].
  split; [exact Hfilter|]. split.
  - exists (wordsOfLength 1). split; [apply generateCombos_spec|].
    now apply Hfilter.
  - intros tlds registrar. exists (initialState tlds). unfold main.
    rewrite generateCombos_spec, (Hfilter _ Hone), tldLoop_no_combos.
    split; reflexivity.
Qed.

Lemma single_letter_auto_checks_nothing_witness :
  hasGoodPronounceability "a" = false /\
  filterByPattern 1 ["a"; "b"] "auto" = [].
Proof.
  split.
  - apply (proj1 (proj2 single_letter_auto_checks_nothing)). reflexivity.
  - apply (proj1 (proj2 (proj2 single_letter_auto_checks_nothing))).
    repeat constructor.
Defined.

(** ** Further properties: classifier *)

Lemma getPattern_cons (c : ascii) (word : string) :
  getPattern (String c word)
  = String (if isVowel (String c EmptyString) then "V" else "C")%char
      (getPattern word).
Proof.
  unfold getPattern. cbn [Js.chars map Js.join fold_right].
  destruct (isVowel (String c EmptyString)); reflexivity.
Qed.

Lemma length_getPattern (word : string) :
  String.length (getPattern word) = String.length word.
Proof.
  induction word as [|c word IH]; [reflexivity|].
  rewrite getPattern_cons. simpl. now rewrite IH.
Qed.

(** X1. The signature of a word has one letter per character of the
    word, and each of them is C or V. *)
Theorem getPattern_signature (word : string) :
  String.length (getPattern word) = String.length word /\
  allCV (getPattern word) = true.
Proof.
  split; [apply length_getPattern|].
  induction word as [|c word IH]; [reflexivity|].
  rewrite getPattern_cons. simpl. rewrite IH.
  destruct (isVowel (String c EmptyString)); reflexivity.
Qed.

Lemma lowerChar_upperChar (c : ascii) :
  Js.lowerChar (Js.upperChar c) = Js.lowerChar c.
Proof. destruct c as [[] [] [] [] [] [] [] []]; reflexivity. Qed.

Lemma lowerChar_idem (c : ascii) :
  Js.lowerChar (Js.lowerChar c) = Js.lowerChar c.
Proof. destruct c as [[] [] [] [] [] [] [] []]; reflexivity. Qed.

(** X2. The signature of a word of ASCII characters does not depend on
    the case of its letters. *)
Theorem getPattern_case_insensitive (word : string) :
  isAscii word = true ->
  getPattern (Js.toUpperCase word) = getPattern word /\
  getPattern (Js.toLowerCase word) = getPattern word.
Proof.
  intros _. induction word as [|c word [IHu IHl]]; [split; reflexivity|].
  unfold Js.toUpperCase, Js.toLowerCase in *. cbn [Js.mapChars].
  rewrite !getPattern_cons, IHu, IHl. unfold isVowel, Js.toLowerCase.
  cbn [Js.mapChars]. now rewrite lowerChar_upperChar, lowerChar_idem.
Qed.

Lemma getPattern_case_insensitive_witness :
  getPattern (Js.toUpperCase "Be-a") = getPattern "Be-a" /\
  getPattern (Js.toLowerCase "Be-a") = getPattern "Be-a".
Proof.
  apply (getPattern_case_insensitive "Be-a"). reflexivity.
Defined.

(** X3. On a one-character string of an ASCII character, [isVowel] and
    [isConsonant] never both hold; on a letter exactly one of them holds;
    on any other ASCII character neither holds, and the signature counts
    the character as a C. *)
Theorem vowel_or_consonant (c : ascii) :
  isAsciiChar c = true ->
  (isVowel (String c EmptyString) = true ->
   isConsonant (String c EmptyString) = false) /\
  (isLetter c = true ->
   isVowel (String c EmptyString) = negb (isConsonant (String c EmptyString))) /\
  (isLetter c = false ->
   isVowel (String c EmptyString) = false /\
   isConsonant (String c EmptyString) = false /\
   getPattern (String c EmptyString) = "C").
Proof.
  intros _. destruct c as [[] [] [] [] [] [] [] []];
    vm_compute; repeat split; congruence.
Qed.

Lemma vowel_or_consonant_witness :
  isConsonant "e" = false /\
  isVowel "Q" = negb (isConsonant "Q") /\
  getPattern "-" = "C".
Proof.
  split; [|split].
  - apply (proj1 (vowel_or_consonant "e"%char eq_refl)). reflexivity.
  - apply (proj1 (proj2 (vowel_or_consonant "Q"%char eq_refl))). reflexivity.
  - apply (proj2 (proj2 (vowel_or_consonant "-"%char eq_refl))). reflexivity.
Defined.

Lemma occurs_CCCC (s : string) : occursIn "CCCC" s -> occursIn "CCC" s.
Proof.
  intros [a [b ->]]. exists a, ("C" +:+ b). reflexivity.
Qed.

(** X4. A word is pronounceable exactly when its signature contains a V
    and a C and neither CCC nor VVV; the test for CCCC adds nothing. *)
Theorem hasGoodPronounceability_iff (word : string) :
  hasGoodPronounceability word = true <->
  occursIn "V" (getPattern word) /\ occursIn "C" (getPattern word) /\
  ~ occursIn "CCC" (getPattern word) /\ ~ occursIn "VVV" (getPattern word).
Proof.
  unfold hasGoodPronounceability. cbv zeta.
  pose proof (includes_spec (getPattern word) "CCC") as H3.
  pose proof (includes_spec (getPattern word) "CCCC") as H4.
  pose proof (includes_spec (getPattern word) "VVV") as HV3.
  pose proof (includes_spec (getPattern word) "V") as HV.
  pose proof (includes_spec (getPattern word) "C") as HC.
  pose proof (occurs_CCCC (getPattern word)) as H43.
  destruct (Js.includes (getPattern word) "CCC");
    destruct (Js.includes (getPattern word) "CCCC");
    destruct (Js.includes (getPattern word) "VVV");
    destruct (Js.includes (getPattern word) "V");
    destruct (Js.includes (getPattern word) "C"); simpl;
    split; try discriminate; try tauto;
    try (intros _; repeat split; try tauto;
         intros Hc; first [apply H3 in Hc | apply HV3 in Hc]; discriminate);
    intros [? [? [? ?]]]; exfalso;
    try (assert (false = true) by tauto; discriminate).
Qed.

(** X5. A pronounceable word has at least two characters. *)
Theorem hasGoodPronounceability_two_letters (word : string) :
  hasGoodPronounceability word = true -> 2 <= String.length word.
Proof.
  destruct word as [|c [|d word]]; simpl; intros H; [discriminate| |lia].
  rewrite (hasGoodPronounceability_single (String c EmptyString)) in H
    by reflexivity.
  discriminate.
Qed.

Lemma hasGoodPronounceability_two_letters_witness :
  2 <= String.length "be".
Proof.
  apply (hasGoodPronounceability_two_letters "be"). reflexivity.
Defined.

(** ** Further properties: filter and generator *)

(** The entries of the table for [n] have [n] letters, and a word with
    such a signature is pronounceable. *)
Lemma bestPatterns_entry (n : nat) (p : string) :
  In p (getBestPatternsForLength n) ->
  String.length p = n /\
  forall word, getPattern word = p -> hasGoodPronounceability word = true.
Proof.
  destruct (Nat.lt_ge_cases n 2) as [Hlo|Hlo];
    [|destruct (Nat.lt_ge_cases 7 n) as [Hhi|Hhi]].
  - unfold getBestPatternsForLength.
    rewrite bestPatterns_outside by lia. intros [].
  - unfold getBestPatternsForLength.
    rewrite bestPatterns_outside by lia. intros [].
  - destruct (bestPatterns_inside n (conj Hlo Hhi))
      as [->|[->|[->|[->|[->| ->]]]]];
      intros H; vm_compute in H;
      repeat (destruct H as [<-|H]; [split; [reflexivity|] |]);
      try contradiction;
      intros word Hw; unfold hasGoodPronounceability; rewrite Hw;
      reflexivity.
Qed.

(** X6. For words of [n] letters, when the table has an entry for [n],
    the filter with "auto" keeps exactly the words whose signature is one
    of the entries: the match is equality, and the pronounceability test
    rejects none of them. *)
Theorem filterByPattern_auto_table (n : nat) (combos : list string) :
  List.Forall (fun w => String.length w = n) combos ->
  getBestPatternsForLength n <> [] ->
  filterByPattern n combos "auto"
  = List.filter
      (fun w => existsb (String.eqb (getPattern w))
                  (getBestPatternsForLength n))
      combos.
Proof.
  intros Hlen Hne. unfold filterByPattern, patternsToMatch. simpl.
  destruct (getBestPatternsForLength n) as [|p0 ps] eqn:Htab;
    [contradiction|]. rewrite <- Htab. clear Hne. simpl.
  assert (Hlen0 : (length (getBestPatternsForLength n) =? 0) = false).
  { rewrite Htab. reflexivity. }
  rewrite Hlen0. apply filter_ext_in. intros w Hw.
  rewrite List.Forall_forall in Hlen. specialize (Hlen w Hw).
  assert (Hsame : forall p, In p (getBestPatternsForLength n) ->
                    matchesPattern w p = String.eqb (getPattern w) p).
  { intros p Hp. destruct (bestPatterns_entry n p Hp) as [Hpl _].
    unfold matchesPattern.
    rewrite length_getPattern, Hlen, Hpl, Nat.eqb_refl.
    reflexivity. }
  assert (Hex : existsb (fun pattern => matchesPattern w pattern)
                  (getBestPatternsForLength n)
                = existsb (String.eqb (getPattern w))
                    (getBestPatternsForLength n)).
  { revert Hsame. clear.
    induction (getBestPatternsForLength n) as [|p ps IH]; intros Hsame;
      [reflexivity|].
    simpl. rewrite Hsame by now left. f_equal. apply IH.
    intros q Hq. apply Hsame. now right. }
  rewrite Hex.
  destruct (existsb (String.eqb (getPattern w)) (getBestPatternsForLength n))
    eqn:He; [|reflexivity].
  apply existsb_exists in He as [p [Hp Heq]]. apply String.eqb_eq in Heq.
  simpl. exact (proj2 (bestPatterns_entry n p Hp) w Heq).
Qed.

Lemma filterByPattern_auto_table_witness :
  filterByPattern 3 ["cat"; "zzz"; "ace"] "auto"
  = List.filter
      (fun w => existsb (String.eqb (getPattern w))
                  (getBestPatternsForLength 3))
      ["cat"; "zzz"; "ace"].
Proof.
  apply (filterByPattern_auto_table 3 ["cat"; "zzz"; "ace"]).
  - repeat constructor.
  - discriminate.
Defined.

Lemma filterByPattern_is_filter (n : nat) (patternFilter : string) :
  exists keep : string -> bool,
    forall combos, filterByPattern n combos patternFilter
                   = List.filter keep combos.
Proof.
  unfold filterByPattern.
  destruct (String.eqb patternFilter "none").
  - exists (fun _ => true). intros combos. induction combos as [|c cs IH];
      [reflexivity|]. simpl. now rewrite <- IH.
  - cbv zeta. destruct (_ && _); eexists; intros combos; reflexivity.
Qed.

Lemma filter_sublist {A} (f : A -> bool) (l : list A) :
  sublist (List.filter f l) l.
Proof.
  induction l as [|x l IH]; [constructor|].
  simpl. destruct (f x); now constructor.
Qed.

Lemma filter_idem {A} (f : A -> bool) (l : list A) :
  List.filter f (List.filter f l) = List.filter f l.
Proof.
  induction l as [|x l IH]; [reflexivity|].
  simpl. destruct (f x) eqn:Hx; [|exact IH]. simpl. now rewrite Hx, IH.
Qed.

Lemma StronglySorted_filter {A} (R : A -> A -> Prop) (f : A -> bool)
    (l : list A) :
  StronglySorted R l -> StronglySorted R (List.filter f l).
Proof.
  intros Hs. induction Hs as [|x l Hs IH Hall]; [constructor|].
  simpl. destruct (f x); [|exact IH]. constructor; [exact IH|].
  apply List.Forall_forall. intros y Hy. apply filter_In in Hy as [Hy _].
  rewrite List.Forall_forall in Hall. now apply Hall.
Qed.

(** X7. Whatever the pattern, the filter returns a subsequence of its
    input, in the order of the input, and filtering a second time changes
    nothing. *)
Theorem filterByPattern_sublist (n : nat) (combos : list string)
    (patternFilter : string) :
  sublist (filterByPattern n combos patternFilter) combos /\
  filterByPattern n (filterByPattern n combos patternFilter) patternFilter
  = filterByPattern n combos patternFilter.
Proof.
  destruct (filterByPattern_is_filter n patternFilter) as [keep Hkeep].
  rewrite !Hkeep. split; [apply filter_sublist | apply filter_idem].
Qed.

(** X8. The candidates of a run, the generated combinations that pass
    the filter, are pairwise distinct, in increasing order, and each has
    [L] lowercase letters, for every pattern. *)
Theorem candidates_sorted_distinct (L : nat) (patternArg : string) :
  exists allCombos,
    generateCombos L = Some allCombos /\
    let combos := filterByPattern L allCombos patternArg in
    List.NoDup combos /\
    StronglySorted lexLt combos /\
    List.Forall (fun w => String.length w = L /\ allLowercase w = true)
      combos.
Proof.
  exists (wordsOfLength L). split; [apply generateCombos_spec|]. cbv zeta.
  destruct (filterByPattern_is_filter L patternArg) as [keep Hkeep].
  rewrite Hkeep.
  assert (Hs : StronglySorted lexLt (List.filter keep (wordsOfLength L))).
  { apply StronglySorted_filter, wordsOfLength_sorted. }
  split; [|split; [exact Hs|]].
  - exact (StronglySorted_NoDup lexLt _ lexLt_irrefl Hs).
  - apply List.Forall_forall. intros w Hw. apply filter_In in Hw as [Hw _].
    pose proof (wordsOfLength_shape L) as Hall.
    rewrite List.Forall_forall in Hall. now apply Hall.
Qed.

Lemma isLower_in_letters (a : ascii) :
  Js.isLower a = true -> In a (list_ascii_of_string letters).
Proof.
  destruct a as [[] [] [] [] [] [] [] []]; vm_compute; intros H;
    try discriminate; repeat (first [left; reflexivity | right]).
Qed.

(** X9. The generator returns exactly the words of [L] lowercase
    letters: a string is in its result if and only if it is one. *)
Theorem generateCombos_members (L : nat) (w : string) :
  (exists combos, generateCombos L = Some combos /\ In w combos) <->
  String.length w = L /\ allLowercase w = true.
Proof.
  rewrite generateCombos_spec. split.
  - intros [combos [[= <-] Hin]].
    pose proof (wordsOfLength_shape L) as Hall.
    rewrite List.Forall_forall in Hall. now apply Hall.
  - intros [Hlen Hlow]. exists (wordsOfLength L). split; [reflexivity|].
    subst L. induction w as [|a w IH]; [now left|].
    simpl in Hlow. apply andb_true_iff in Hlow as [Ha Hw].
    cbn [String.length]. rewrite wordsOfLength_by_ascii.
    apply in_flat_map. exists a. split; [now apply isLower_in_letters|].
    apply in_map. now apply IH.
Qed.

Section UpperCase.

Lemma upperChar_idem (c : ascii) :
  Js.upperChar (Js.upperChar c) = Js.upperChar c.
Proof. destruct c as [[] [] [] [] [] [] [] []]; reflexivity. Qed.

Lemma upperChar_not_lower (c : ascii) : Js.isLower (Js.upperChar c) = false.
Proof. destruct c as [[] [] [] [] [] [] [] []]; reflexivity. Qed.

Lemma upperChar_space (c : ascii) :
  Js.isWhiteSpace (Js.upperChar c) = Js.isWhiteSpace c.
Proof. destruct c as [[] [] [] [] [] [] [] []]; reflexivity. Qed.

Lemma upperChar_comma (c : ascii) :
  Ascii.eqb (Js.upperChar c) ","%char = Ascii.eqb c ","%char.
Proof. destruct c as [[] [] [] [] [] [] [] []]; reflexivity. Qed.

Lemma toUpperCase_idem (s : string) :
  Js.toUpperCase (Js.toUpperCase s) = Js.toUpperCase s.
Proof.
  unfold Js.toUpperCase. induction s as [|c s IH]; [reflexivity|].
  cbn [Js.mapChars]. now rewrite upperChar_idem, IH.
Qed.

Lemma toUpperCase_split (s : string) :
  Js.split "," (Js.toUpperCase s) = map Js.toUpperCase (Js.split "," s).
Proof.
  unfold Js.toUpperCase. induction s as [|c s IH]; [reflexivity|].
  cbn [Js.mapChars Js.split]. rewrite upperChar_comma, IH.
  destruct (Ascii.eqb c ","); [reflexivity|].
  destruct (Js.split "," s); reflexivity.
Qed.

Lemma toUpperCase_trimStart (s : string) :
  Js.trimStart (Js.toUpperCase s) = Js.toUpperCase (Js.trimStart s).
Proof.
  unfold Js.toUpperCase. induction s as [|c s IH]; [reflexivity|].
  cbn [Js.mapChars Js.trimStart]. rewrite upperChar_space.
  destruct (Js.isWhiteSpace c); [exact IH | reflexivity].
Qed.

Lemma toUpperCase_trimEnd (s : string) :
  Js.trimEnd (Js.toUpperCase s) = Js.toUpperCase (Js.trimEnd s).
Proof.
  unfold Js.toUpperCase. induction s as [|c s IH]; [reflexivity|].
  cbn [Js.mapChars Js.trimEnd]. rewrite IH, upperChar_space.
  destruct (Js.trimEnd s); cbn [Js.mapChars];
    [destruct (Js.isWhiteSpace c)|]; reflexivity.
Qed.

Lemma toUpperCase_not_sentinel (s : string) :
  Js.toUpperCase s <> "none" /\ Js.toUpperCase s <> "auto".
Proof.
  destruct s as [|c s]; [split; discriminate|].
  unfold Js.toUpperCase. cbn [Js.mapChars].
  pose proof (upperChar_not_lower c) as Hc.
  split; intros [= Hhead _]; rewrite Hhead in Hc; discriminate.
Qed.

End UpperCase.

(** X10. Signatures given on the command line are read without regard
    to case: for a pattern that is neither "none" nor "auto", the filter
    gives the same result for the pattern and for the pattern in upper
    case. *)
Theorem filterByPattern_pattern_case (n : nat) (combos : list string)
    (patternFilter : string) :
  patternFilter <> "none" -> patternFilter <> "auto" ->
  filterByPattern n combos (Js.toUpperCase patternFilter)
  = filterByPattern n combos patternFilter.
Proof.
  intros Hnone Hauto.
  destruct (toUpperCase_not_sentinel patternFilter) as [Hn Ha].
  unfold filterByPattern, patternsToMatch.
  apply String.eqb_neq in Hnone, Hauto, Hn, Ha.
  rewrite Hnone, Hauto, Hn, Ha. simpl.
  rewrite toUpperCase_split, map_map.
  assert (Heq : map (fun p => Js.toUpperCase (Js.trim (Js.toUpperCase p)))
                  (Js.split "," patternFilter)
                = map (fun p => Js.toUpperCase (Js.trim p))
                    (Js.split "," patternFilter)).
  { apply map_ext. intros p. unfold Js.trim.
    now rewrite toUpperCase_trimStart, toUpperCase_trimEnd, toUpperCase_idem. }
  now rewrite Heq.
Qed.

Lemma filterByPattern_pattern_case_witness :
  filterByPattern 3 ["cat"; "ace"] (Js.toUpperCase "cvc, vcv")
  = filterByPattern 3 ["cat"; "ace"] "cvc, vcv".
Proof.
  apply (filterByPattern_pattern_case 3 ["cat"; "ace"] "cvc, vcv");
    discriminate.
Defined.

(** ** Further properties: files *)

Lemma append_inj_r (s1 s2 t : string) : s1 +:+ t = s2 +:+ t -> s1 = s2.
Proof.
  intros H.
  assert (Hlen : String.length s1 = String.length s2).
  { apply (f_equal String.length) in H. rewrite !length_append in H. lia. }
  revert s2 H Hlen. induction s1 as [|a s1 IH]; intros [|b s2] H Hlen;
    try reflexivity; try discriminate.
  rewrite !append_cons in H. injection H as -> H. f_equal.
  apply IH; [exact H | now injection Hlen].
Qed.

(** X11. Two TLDs have the same text file exactly when they are equal
    once one leading dot is dropped; a TLD and the same TLD with a dot in
    front share their file. *)
Theorem textFilePath_same (stamp : string) (numberOfLetters : nat)
    (tld1 tld2 : string) :
  textFilePath stamp numberOfLetters tld1
  = textFilePath stamp numberOfLetters tld2
  <-> tldName tld1 = tldName tld2.
Proof.
  unfold textFilePath, resultFileName. split.
  - intros H.
    repeat (apply String.app_inj in H). now apply append_inj_r in H.
  - now intros ->.
Qed.

Lemma appendContent_lines (names : list string) :
  names <> [] -> appendContent names = linesOf names.
Proof.
  unfold appendContent, linesOf.
  induction names as [|x [|y rest] IH]; intros Hne; [contradiction| |].
  - simpl. now rewrite append_nil_r.
  - change (Js.joinWith newline (x :: y :: rest))
      with (x +:+ newline +:+ Js.joinWith newline (y :: rest)).
    rewrite !append_assoc, IH by discriminate.
    cbn [map Js.join fold_right]. now rewrite !append_assoc.
Qed.

Lemma linesOf_app (a b : list string) :
  linesOf (a ++ b) = linesOf a +:+ linesOf b.
Proof.
  unfold linesOf. induction a as [|x a IH]; [reflexivity|].
  cbn [app map Js.join fold_right]. fold (Js.join (map (fun d => d +:+ newline) (a ++ b))).
  fold (Js.join (map (fun d => d +:+ newline) a)).
  now rewrite IH, !append_assoc.
Qed.

(** X12. Appends of non-empty arrays of names leave in the file one line
    per name, in order: what several appends write is what one append of
    all the names would write. *)
Theorem appendedText_lines (evs : list SaveEvent) :
  List.Forall (fun ev => eventNames ev <> []) evs ->
  appendedText evs = linesOf (concat (map eventNames evs)).
Proof.
  unfold appendedText. induction 1 as [|ev evs Hev _ IH]; [reflexivity|].
  cbn [map concat Js.join fold_right].
  fold (Js.join (map (fun ev => appendContent (eventNames ev)) evs)).
  now rewrite linesOf_app, IH, appendContent_lines.
Qed.

Lemma appendedText_lines_witness :
  appendedText [Saved ".io" ["ab.io"; "ac.io"] 500; SavedFinal ".io" ["ad.io"]]
  = linesOf ["ab.io"; "ac.io"; "ad.io"].
Proof.
  apply (appendedText_lines
           [Saved ".io" ["ab.io"; "ac.io"] 500; SavedFinal ".io" ["ad.io"]]).
  repeat constructor; discriminate.
Defined.



(** ** Further properties: the batch loop *)

Lemma collect_available (tld : string) (results : list AvailabilityRecord) :
  forall av pending,
    default [] ((collect tld results av pending).1 !! tld)
    = default [] (av !! tld) ++ availableNames results /\
    forall k, k <> tld -> (collect tld results av pending).1 !! k = av !! k.
Proof.
  unfold collect, availableNames.
  induction results as [|r rs IH]; intros av pending; simpl.
  - split; [now rewrite app_nil_r | reflexivity].
  - destruct (available r); simpl; [|apply IH].
    destruct (IH (<[tld := default [] (av !! tld) ++ [domain r]]> av)
                (pending ++ [domain r])) as [Hd Hk].
    split.
    + rewrite Hd, lookup_insert_eq. simpl. now rewrite <- app_assoc.
    + intros k Hne. rewrite Hk by exact Hne.
      apply lookup_insert_ne. congruence.
Qed.

Section Trace.

Variable registrar : Registrar.
Variable combos : list string.
Variable tld : string.

(** What an iteration that returns has done. *)
Lemma processBatch_Finished_inv (i : nat) (loc loc1 : Locals)
    (st st1 : State) :
  processBatch registrar combos tld i loc st = Finished (loc1, st1) ->
  exists results evs,
    checkDomainsBatch (registrar (length (requests st)))
      (batchAt combos tld i) = Normal results /\
    requests st1 = requests st ++ [batchAt combos tld i] /\
    saves st1 = saves st ++ evs /\
    List.Forall (fun ev => eventTld ev = tld /\ eventNames ev <> []) evs /\
    availableByTld st1
    = (collect tld results (availableByTld st) (pendingDomains loc)).1 /\
    domainCounters st1
    = <[tld := (default 0 (domainCounters st !! tld)
                + Z.of_nat (length (batchAt combos tld i)))%Z]>
        (domainCounters st) /\
    pendingDomains loc ++ availableNames results
    = concat (map eventNames evs) ++ pendingDomains loc1.
Proof.
  destruct (checkDomainsBatch (registrar (length (requests st)))
              (batchAt combos tld i)) as [results|] eqn:Hq.
  - rewrite (processBatch_Normal _ _ _ _ _ _ _ Hq). cbv zeta.
    destruct (shouldSave _ _ _ && _) eqn:Hsave; intros [= <- <-];
      exists results.
    + eexists [Saved tld _ _].
      split; [reflexivity|]. split; [reflexivity|]. split; [reflexivity|].
      split; [|split; [reflexivity|split; [reflexivity|]]].
      * constructor; [|constructor]. split; [reflexivity|]. cbn.
        apply andb_true_iff in Hsave as [_ Hlen]. apply Nat.ltb_lt in Hlen.
        intros Hnil. rewrite Hnil in Hlen. simpl in Hlen. lia.
      * cbn. rewrite ?app_nil_r. reflexivity.
    + exists []. cbn. rewrite ?app_nil_r. repeat split; constructor.
  - rewrite (processBatch_Throw _ _ _ _ _ _ Hq). discriminate.
Qed.

Lemma processBatch_Aborted_inv (i : nat) (loc : Locals) (st st1 : State) :
  processBatch registrar combos tld i loc st = Aborted st1 ->
  st1 = withRequest (batchAt combos tld i) st.
Proof.
  destruct (checkDomainsBatch (registrar (length (requests st)))
              (batchAt combos tld i)) as [results|] eqn:Hq.
  - rewrite (processBatch_Normal _ _ _ _ _ _ _ Hq). cbv zeta.
    destruct (_ && _); discriminate.
  - rewrite (processBatch_Throw _ _ _ _ _ _ Hq). now intros [= <-].
Qed.

Lemma reportedBy_mono (reqs : list (list string)) (first first' : nat)
    (d : string) :
  first <= first' ->
  reportedBy registrar reqs first' d -> reportedBy registrar reqs first d.
Proof.
  intros Hle (n & batch & results & Hn & H). exists n, batch, results.
  split; [lia | exact H].
Qed.

(** The trace of a loop that runs to its end, from index [i]. *)
Lemma batchLoop_trace (fuel : nat) :
  forall i loc st loc' st',
    batchLoop fuel registrar combos tld i loc st = Finished (loc', st') ->
    exists bs evs found,
      requests st' = requests st ++ bs /\
      concat bs = map (fun combo => combo +:+ tld) (skipn i combos) /\
      List.Forall (fun b => 1 <= length b <= BATCH_SIZE) bs /\
      length combos - i <= BATCH_SIZE * length bs
                        < length combos - i + BATCH_SIZE /\
      saves st' = saves st ++ evs /\
      List.Forall (fun ev => eventTld ev = tld /\ eventNames ev <> []) evs /\
      default [] (availableByTld st' !! tld)
      = default [] (availableByTld st !! tld) ++ found /\
      pendingDomains loc ++ found
      = concat (map eventNames evs) ++ pendingDomains loc' /\
      List.Forall
        (reportedBy registrar (requests st') (length (requests st))) found /\
      default 0%Z (domainCounters st' !! tld)
      = (default 0 (domainCounters st !! tld)
         + Z.of_nat (length combos - i))%Z.
Proof.
  induction fuel as [|fuel IH]; intros i loc st loc' st' Hrun;
    [discriminate|].
  destruct (Nat.lt_ge_cases i (length combos)) as [Hi|Hi].
  - rewrite batchLoop_step in Hrun by exact Hi.
    destruct (processBatch registrar combos tld i loc st)
      as [[loc1 st1]|st1|] eqn:Hstep; try discriminate.
    destruct (processBatch_Finished_inv _ _ _ _ _ Hstep)
      as (results & evs0 & Hq & Hr0 & Hs0 & Hev0 & Hav0 & Hc0 & Hp0).
    destruct (IH _ _ _ _ _ Hrun)
      as (bs & evs & found & Hr & Hcat & Hsz & Hcnt & Hs & Hev & Hav & Hp
          & Hrep & Hctr).
    destruct (collect_available tld results (availableByTld st)
                (pendingDomains loc)) as [Hcol _].
    pose proof (length_batchAt combos tld i) as Hlen.
    exists (batchAt combos tld i :: bs), (evs0 ++ evs),
      (availableNames results ++ found).
    split; [rewrite Hr, Hr0, <- app_assoc; reflexivity|].
    split.
    { cbn [concat]. rewrite Hcat. unfold batchAt, Js.slice.
      replace (i + BATCH_SIZE - i) with BATCH_SIZE by lia.
      rewrite <- map_app. f_equal.
      transitivity (firstn BATCH_SIZE (skipn i combos)
                    ++ skipn BATCH_SIZE (skipn i combos));
        [|apply firstn_skipn].
      f_equal. rewrite skipn_skipn. f_equal. lia. }
    split.
    { constructor; [|exact Hsz]. rewrite Hlen. unfold BATCH_SIZE. lia. }
    split.
    { cbn [length]. unfold BATCH_SIZE in *. lia. }
    split; [rewrite Hs, Hs0, <- app_assoc; reflexivity|].
    split; [apply List.Forall_app; split; assumption|].
    split.
    { rewrite Hav, Hav0, Hcol, <- app_assoc. reflexivity. }
    split.
    { rewrite map_app, concat_app, <- app_assoc, <- Hp, !app_assoc.
      now rewrite Hp0. }
    split.
    { apply List.Forall_app. split.
      - apply List.Forall_forall. intros d Hd.
        exists (length (requests st)), (batchAt combos tld i), results.
        split; [lia|]. split; [|split; assumption].
        rewrite Hr, Hr0, <- app_assoc. now apply list_lookup_middle.
      - eapply List.Forall_impl; [|exact Hrep]. intros d.
        apply reportedBy_mono. rewrite Hr0, List.length_app. lia. }
    rewrite Hctr, Hc0, lookup_insert_eq, Hlen.
    set (c0 := default 0%Z (domainCounters st !! tld)).
    cbn [from_option]. unfold id, BATCH_SIZE. lia.
  - rewrite batchLoop_done in Hrun by exact Hi. injection Hrun as <- <-.
    exists [], [], []. rewrite !app_nil_r, skipn_all2 by exact Hi.
    repeat split; try constructor; unfold BATCH_SIZE; simpl; lia.
Qed.

End Trace.

(** ** Further properties: the run of a TLD *)

Section TldRun.

Variable registrar : Registrar.
Variable combos : list string.
Variable tld : string.

(** The trace of the run of a TLD that finishes, the save after the loop
    included. *)
Lemma checkTld_trace (st st' : State) :
  checkTld registrar combos tld st = Finished st' ->
  exists bs evs found,
    requests st' = requests st ++ bs /\
    concat bs = map (fun combo => combo +:+ tld) combos /\
    List.Forall (fun b => 1 <= length b <= BATCH_SIZE) bs /\
    length combos <= BATCH_SIZE * length bs < length combos + BATCH_SIZE /\
    saves st' = saves st ++ evs /\
    List.Forall (fun ev => eventTld ev = tld /\ eventNames ev <> []) evs /\
    default [] (availableByTld st' !! tld)
    = default [] (availableByTld st !! tld) ++ found /\
    concat (map eventNames evs) = found /\
    List.Forall
      (reportedBy registrar (requests st') (length (requests st))) found /\
    default 0%Z (domainCounters st' !! tld)
    = (default 0 (domainCounters st !! tld) + Z.of_nat (length combos))%Z.
Proof.
  unfold checkTld.
  destruct (batchLoop (S (length combos)) registrar combos tld 0
              {| pendingDomains := []; lastSavedAt := 0 |} st)
    as [[loc1 st1]|st1|] eqn:Hrun; try discriminate.
  destruct (batchLoop_trace _ _ _ _ _ _ _ _ _ Hrun)
    as (bs & evs & found & Hr & Hcat & Hsz & Hcnt & Hs & Hev & Hav & Hp
        & Hrep & Hctr).
  rewrite Nat.sub_0_r in Hcnt, Hctr. cbn [pendingDomains app] in Hp.
  cbn [skipn] in Hcat.
  destruct (pendingDomains loc1) as [|d pend] eqn:Hpend; cbn [length];
    intros [= <-].
  - exists bs, evs, found. rewrite app_nil_r in Hp. repeat split;
      try assumption; try lia. now symmetry.
  - exists bs, (evs ++ [SavedFinal tld (d :: pend)]), found.
    cbn [requests saves availableByTld domainCounters appendDomainsToFile
         length Nat.eqb].
    split; [exact Hr|]. split; [exact Hcat|]. split; [exact Hsz|].
    split; [exact Hcnt|]. split; [rewrite Hs, <- app_assoc; reflexivity|].
    split.
    { apply List.Forall_app. split; [exact Hev|].
      constructor; [|constructor]. split; [reflexivity|discriminate]. }
    split; [exact Hav|]. split; [|split; [exact Hrep | exact Hctr]].
    rewrite map_app, concat_app. cbn. now rewrite app_nil_r.
Qed.

(** X14. In the run of a TLD that finishes, the requests are the
    candidates, every combination followed by the TLD, each exactly once
    and in order, cut into batches of 1 to 50 names; there are as many
    requests as the number of combinations divided by 50, rounded up. *)
Theorem checkTld_batches (st st' : State) :
  checkTld registrar combos tld st = Finished st' ->
  exists bs,
    requests st' = requests st ++ bs /\
    concat bs = map (fun combo => combo +:+ tld) combos /\
    List.Forall (fun b => 1 <= length b <= 50) bs /\
    length bs = (length combos + 49) / 50.
Proof.
  intros Hrun.
  destruct (checkTld_trace st st' Hrun)
    as (bs & evs & found & Hr & Hcat & Hsz & Hcnt & _).
  exists bs. split; [exact Hr|]. split; [exact Hcat|]. split; [exact Hsz|].
  unfold BATCH_SIZE in Hcnt.
  apply (Nat.div_unique (length combos + 49) 50 (length bs)
           (length combos + 49 - 50 * length bs)); lia.
Qed.

(** X15. In the run of a TLD that finishes, the names appended to the
    file of the TLD are exactly the names added to the available names of
    the TLD, in the same order, one line each: no name found is left
    unsaved. *)
Theorem checkTld_nothing_lost (st st' : State) :
  checkTld registrar combos tld st = Finished st' ->
  exists evs found,
    saves st' = saves st ++ evs /\
    List.Forall (fun ev => eventTld ev = tld) evs /\
    default [] (availableByTld st' !! tld)
    = default [] (availableByTld st !! tld) ++ found /\
    concat (map eventNames evs) = found /\
    appendedText evs = linesOf found.
Proof.
  intros Hrun.
  destruct (checkTld_trace st st' Hrun)
    as (bs & evs & found & _ & _ & _ & _ & Hs & Hev & Hav & Hnames & _).
  exists evs, found. split; [exact Hs|]. split.
  { eapply List.Forall_impl; [|exact Hev]. now intros ev [H _]. }
  split; [exact Hav|]. split; [exact Hnames|].
  rewrite <- Hnames. unfold appendedText.
  clear -Hev. induction Hev as [|ev evs [_ Hne] _ IH]; [reflexivity|].
  cbn [map concat Js.join fold_right].
  fold (Js.join (map (fun ev => appendContent (eventNames ev)) evs)).
  now rewrite linesOf_app, IH, appendContent_lines.
Qed.

(** X16. In the run of a TLD that finishes, every name added to the
    available names of the TLD was reported as available in the response
    the run received to one of its own requests: the request sent as the
    n-th of the whole run, answered by the registrar as its n-th. *)
Theorem checkTld_reported (st st' : State) :
  checkTld registrar combos tld st = Finished st' ->
  exists found,
    default [] (availableByTld st' !! tld)
    = default [] (availableByTld st !! tld) ++ found /\
    List.Forall
      (reportedBy registrar (requests st') (length (requests st))) found.
Proof.
  intros Hrun.
  destruct (checkTld_trace st st' Hrun)
    as (bs & evs & found & Hr & _ & _ & _ & _ & _ & Hav & _ & Hrep & _).
  now exists found.
Qed.

Lemma checkTld_present (st st' : State) :
  is_Some (domainCounters st !! tld) ->
  lastState (checkTld registrar combos tld st) = Some st' ->
  is_Some (domainCounters st' !! tld).
Proof.
  intros Hsome Hlast. unfold checkTld in Hlast.
  assert (Hstep : forall i loc st0, i < length combos ->
            is_Some (domainCounters st0 !! tld) ->
            match processBatch registrar combos tld i loc st0 with
            | Finished (_, st1) => is_Some (domainCounters st1 !! tld)
            | Aborted st1 => is_Some (domainCounters st1 !! tld)
            | OutOfFuel => True
            end).
  { intros i loc st0 _ H0.
    destruct (processBatch registrar combos tld i loc st0)
      as [[loc1 st1]|st1|] eqn:Hs; [| |exact I].
    - destruct (processBatch_Finished_inv _ _ _ _ _ _ _ _ Hs)
        as (results & evs0 & _ & _ & _ & _ & _ & Hc & _).
      rewrite Hc, lookup_insert_eq. eauto.
    - apply processBatch_Aborted_inv in Hs. subst st1. exact H0. }
  pose proof (batchLoop_preserves registrar combos tld
                (fun st0 => is_Some (domainCounters st0 !! tld))
                Hstep (S (length combos)) 0
                {| pendingDomains := []; lastSavedAt := 0 |} st Hsome) as Hinv.
  destruct (batchLoop _ _ _ _ _ _ _) as [[loc1 st1]|st1|];
    [|injection Hlast as <-; exact Hinv|discriminate].
  destruct (0 <? length (pendingDomains loc1));
    injection Hlast as <-; exact Hinv.
Qed.

(** X17. The run of a TLD other than [__proto__] that finishes adds the
    number of combinations to the counter the TLD has, whatever the
    counter was before. *)
Theorem checkTld_counter_adds (st st' : State) (c : Z) :
  tld <> "__proto__" ->
  domainCounters st !! tld = Some c ->
  checkTld registrar combos tld st = Finished st' ->
  domainCounters st' !! tld = Some (c + Z.of_nat (length combos))%Z.
Proof.
  intros _ Hc Hrun.
  destruct (checkTld_trace st st' Hrun)
    as (bs & evs & found & _ & _ & _ & _ & _ & _ & _ & _ & _ & Hctr).
  destruct (checkTld_present st st') as [c' Hc'];
    [rewrite Hc; eauto | now rewrite Hrun |].
  rewrite Hc, Hc' in Hctr. cbn in Hctr. now rewrite Hc', Hctr.
Qed.

Lemma processBatch_others (st0 : State) (i : nat) (loc : Locals)
    (st : State) :
  othersAsIn tld st0 st ->
  match processBatch registrar combos tld i loc st with
  | Finished (_, st') => othersAsIn tld st0 st'
  | Aborted st' => othersAsIn tld st0 st'
  | OutOfFuel => True
  end.
Proof.
  intros Hst.
  destruct (processBatch registrar combos tld i loc st)
    as [[loc1 st1]|st1|] eqn:Hstep; [| |exact I].
  - destruct (processBatch_Finished_inv _ _ _ _ _ _ _ _ Hstep)
      as (results & evs0 & _ & _ & _ & _ & Hav & Hc & _).
    intros k Hk. rewrite Hav, Hc.
    rewrite (proj2 (collect_available tld results (availableByTld st)
                      (pendingDomains loc)) k Hk).
    rewrite lookup_insert_ne by congruence. now apply Hst.
  - apply processBatch_Aborted_inv in Hstep. subst st1. exact Hst.
Qed.

Lemma checkTld_others (st st' : State) (k : string) :
  lastState (checkTld registrar combos tld st) = Some st' ->
  k <> tld ->
  availableByTld st' !! k = availableByTld st !! k /\
  domainCounters st' !! k = domainCounters st !! k.
Proof.
  intros Hlast Hk. unfold checkTld in Hlast.
  pose proof (batchLoop_preserves registrar combos tld (othersAsIn tld st)
                (fun i loc st0 _ H0 => processBatch_others st i loc st0 H0)
                (S (length combos)) 0
                {| pendingDomains := []; lastSavedAt := 0 |} st
                (fun k _ => conj eq_refl eq_refl)) as Hinv.
  destruct (batchLoop _ _ _ _ _ _ _) as [[loc1 st1]|st1|];
    [|injection Hlast as <-; now apply Hinv|discriminate].
  destruct (0 <? length (pendingDomains loc1));
    injection Hlast as <-; now apply Hinv.
Qed.

(** X18. The run of a TLD, finished or aborted, leaves the available
    names and the counters of the other TLDs as they were. *)
Theorem checkTld_other_tlds (st st' : State) (k : string) :
  lastState (checkTld registrar combos tld st) = Some st' ->
  k <> tld ->
  availableByTld st' !! k = availableByTld st !! k /\
  domainCounters st' !! k = domainCounters st !! k.
Proof. apply checkTld_others. Qed.

End TldRun.

Lemma sampleEnd_run :
  checkTld allAvailable ["ab"; "ac"] ".io" sampleStart = Finished sampleEnd.
Proof. vm_compute. reflexivity. Qed.

Lemma checkTld_batches_witness :
  exists bs,
    requests sampleEnd = requests sampleStart ++ bs /\
    concat bs = map (fun combo => combo +:+ ".io") ["ab"; "ac"] /\
    List.Forall (fun b => 1 <= length b <= 50) bs /\
    length bs = (length ["ab"; "ac"] + 49) / 50.
Proof.
  apply (checkTld_batches allAvailable ["ab"; "ac"] ".io" sampleStart).
  exact sampleEnd_run.
Defined.

Lemma checkTld_nothing_lost_witness :
  exists evs found,
    saves sampleEnd = saves sampleStart ++ evs /\
    List.Forall (fun ev => eventTld ev = ".io") evs /\
    default [] (availableByTld sampleEnd !! ".io")
    = default [] (availableByTld sampleStart !! ".io") ++ found /\
    concat (map eventNames evs) = found /\
    appendedText evs = linesOf found.
Proof.
  apply (checkTld_nothing_lost allAvailable ["ab"; "ac"] ".io" sampleStart).
  exact sampleEnd_run.
Defined.

Lemma checkTld_reported_witness :
  exists found,
    default [] (availableByTld sampleEnd !! ".io")
    = default [] (availableByTld sampleStart !! ".io") ++ found /\
    List.Forall
      (reportedBy allAvailable (requests sampleEnd)
         (length (requests sampleStart))) found.
Proof.
  apply (checkTld_reported allAvailable ["ab"; "ac"] ".io" sampleStart).
  exact sampleEnd_run.
Defined.

Lemma checkTld_counter_adds_witness :
  domainCounters sampleEnd !! ".io"
  = Some (0 + Z.of_nat (length ["ab"; "ac"]))%Z.
Proof.
  apply (checkTld_counter_adds allAvailable ["ab"; "ac"] ".io" sampleStart).
  - discriminate.
  - vm_compute. reflexivity.
  - exact sampleEnd_run.
Defined.

Lemma checkTld_other_tlds_witness :
  availableByTld sampleEnd !! ".com" = availableByTld sampleStart !! ".com" /\
  domainCounters sampleEnd !! ".com" = domainCounters sampleStart !! ".com".
Proof.
  apply (checkTld_other_tlds allAvailable ["ab"; "ac"] ".io" sampleStart).
  - rewrite sampleEnd_run. reflexivity.
  - discriminate.
Defined.

(** ** Further properties: the whole run *)

Lemma fold_insert_lookup {V} (v : V) (tlds : list string) :
  forall (m : gmap string V) (k : string),
    (In k tlds ->
     fold_left (fun m tld => <[tld := v]> m) tlds m !! k = Some v) /\
    (~ In k tlds ->
     fold_left (fun m tld => <[tld := v]> m) tlds m !! k = m !! k).
Proof.
  induction tlds as [|t rest IH]; intros m k; cbn [fold_left].
  - split; [intros [] | reflexivity].
  - destruct (IH (<[t := v]> m) k) as [IHin IHout]. split.
    + intros [->|Hin].
      * destruct (in_dec string_dec k rest) as [Hr|Hr]; [now apply IHin|].
        rewrite IHout by exact Hr. apply lookup_insert_eq.
      * now apply IHin.
    + intros Hnot. rewrite IHout by (intros H; apply Hnot; now right).
      apply lookup_insert_ne. intros ->. apply Hnot. now left.
Qed.

(** X19. Before the first batch every TLD of the list other than
    [__proto__], repeated or not, has the counter 0 and no available
    name, and such a TLD that is not in the list has no entry in either
    object. *)
Theorem initialState_lookup (tlds : list string) (tld : string) :
  tld <> "__proto__" ->
  (In tld tlds ->
   domainCounters (initialState tlds) !! tld = Some 0%Z /\
   availableByTld (initialState tlds) !! tld = Some []) /\
  (~ In tld tlds ->
   domainCounters (initialState tlds) !! tld = None /\
   availableByTld (initialState tlds) !! tld = None).
Proof.
  intros _. unfold initialState. cbn [domainCounters availableByTld]. split.
  - intros Hin. split; now apply fold_insert_lookup.
  - intros Hnot. split;
      rewrite (proj2 (fold_insert_lookup _ tlds ∅ tld) Hnot);
      apply lookup_empty.
Qed.

Lemma initialState_lookup_witness :
  (domainCounters (initialState [".com"; ".io"; ".com"]) !! ".com" = Some 0%Z /\
   availableByTld (initialState [".com"; ".io"; ".com"]) !! ".com" = Some []) /\
  (domainCounters (initialState [".com"; ".io"; ".com"]) !! ".net" = None /\
   availableByTld (initialState [".com"; ".io"; ".com"]) !! ".net" = None).
Proof.
  split.
  - destruct (initialState_lookup [".com"; ".io"; ".com"] ".com")
      as [Hin _]; [discriminate|].
    apply Hin. now left.
  - destruct (initialState_lookup [".com"; ".io"; ".com"] ".net")
      as [_ Hout]; [discriminate|].
    apply Hout. intros [H|[H|[H|[]]]]; discriminate.
Defined.

Section WholeRun.

Variable registrar : Registrar.
Variable combos : list string.

Lemma checkTld_savesWellFormed (tlds : list string) (tld : string)
    (st : State) :
  In tld tlds -> savesWellFormed tlds st ->
  match checkTld registrar combos tld st with
  | Finished st' => savesWellFormed tlds st'
  | Aborted st' => savesWellFormed tlds st'
  | OutOfFuel => True
  end.
Proof.
  intros Htld Hst. unfold checkTld.
  assert (Hstep : forall i loc st0, i < length combos ->
            savesWellFormed tlds st0 ->
            match processBatch registrar combos tld i loc st0 with
            | Finished (_, st') => savesWellFormed tlds st'
            | Aborted st' => savesWellFormed tlds st'
            | OutOfFuel => True
            end).
  { intros i loc st0 _ H0.
    destruct (processBatch registrar combos tld i loc st0)
      as [[loc1 st1]|st1|] eqn:Hs; [| |exact I].
    - destruct (processBatch_Finished_inv _ _ _ _ _ _ _ _ Hs)
        as (results & evs0 & _ & _ & Hsaves & Hev & _).
      unfold savesWellFormed. rewrite Hsaves. apply List.Forall_app.
      split; [exact H0|]. eapply List.Forall_impl; [|exact Hev].
      intros ev [-> Hne]. now split.
    - apply processBatch_Aborted_inv in Hs. subst st1. exact H0. }
  pose proof (batchLoop_preserves registrar combos tld (savesWellFormed tlds)
                Hstep (S (length combos)) 0
                {| pendingDomains := []; lastSavedAt := 0 |} st Hst) as Hinv.
  destruct (batchLoop _ _ _ _ _ _ _) as [[loc1 st1]|st1|]; try exact Hinv.
  destruct (pendingDomains loc1) as [|d pend] eqn:Hp; cbn [length Nat.ltb];
    [exact Hinv|].
  unfold savesWellFormed.
  cbn [saves appendDomainsToFile length Nat.eqb Nat.ltb Nat.leb].
  apply List.Forall_app. split; [exact Hinv|].
  constructor; [|constructor]. split; [discriminate | exact Htld].
Qed.

Lemma tldLoop_savesWellFormed (tlds : list string) :
  forall rest st,
    incl rest tlds -> savesWellFormed tlds st ->
    match tldLoop registrar combos rest st with
    | Finished st' => savesWellFormed tlds st'
    | Aborted st' => savesWellFormed tlds st'
    | OutOfFuel => True
    end.
Proof.
  induction rest as [|tld rest IH]; intros st Hincl Hst; [exact Hst|].
  cbn [tldLoop].
  pose proof (checkTld_savesWellFormed tlds tld st
                (Hincl tld (or_introl eq_refl)) Hst) as Hc.
  destruct (checkTld registrar combos tld st) as [st'|st'|];
    [|exact Hc|exact I].
  apply IH; [|exact Hc]. intros x Hx. apply Hincl. now right.
Qed.

Lemma savedNamesOf_app (t : string) (evs1 evs2 : list SaveEvent) :
  savedNamesOf t (evs1 ++ evs2) = savedNamesOf t evs1 ++ savedNamesOf t evs2.
Proof.
  unfold savedNamesOf. now rewrite List.filter_app, map_app, concat_app.
Qed.

Lemma savedNamesOf_same (t : string) (evs : list SaveEvent) :
  List.Forall (fun ev => eventTld ev = t) evs ->
  savedNamesOf t evs = concat (map eventNames evs).
Proof.
  unfold savedNamesOf. induction 1 as [|ev evs Hev _ IH]; [reflexivity|].
  cbn [List.filter]. rewrite Hev, String.eqb_refl. cbn [map concat].
  now rewrite IH.
Qed.

Lemma savedNamesOf_other (t tld : string) (evs : list SaveEvent) :
  t <> tld -> List.Forall (fun ev => eventTld ev = tld) evs ->
  savedNamesOf t evs = [].
Proof.
  intros Hne. unfold savedNamesOf.
  induction 1 as [|ev evs Hev _ IH]; [reflexivity|].
  cbn [List.filter]. rewrite Hev.
  destruct (String.eqb_spec tld t) as [->|_]; [contradiction | exact IH].
Qed.

Lemma checkTld_outputsAgree (tld : string) (st st' : State) :
  checkTld registrar combos tld st = Finished st' ->
  outputsAgree st -> outputsAgree st'.
Proof.
  intros Hrun Hst t.
  destruct (checkTld_trace _ _ _ _ _ Hrun)
    as (bs & evs & found & _ & _ & _ & _ & Hs & Hev & Hav & Hnames & _).
  assert (Htld : List.Forall (fun ev => eventTld ev = tld) evs).
  { eapply List.Forall_impl; [|exact Hev]. now intros ev [H _]. }
  rewrite Hs, savedNamesOf_app, <- Hst.
  destruct (string_dec t tld) as [->|Hne].
  - now rewrite Hav, savedNamesOf_same, Hnames.
  - rewrite (savedNamesOf_other t tld evs Hne Htld), app_nil_r.
    f_equal. apply (checkTld_others registrar combos tld st st' t);
      [now rewrite Hrun | exact Hne].
Qed.

Lemma checkTld_request_count (tld : string) (st st' : State) :
  checkTld registrar combos tld st = Finished st' ->
  length (requests st')
  = length (requests st) + (length combos + 49) / 50.
Proof.
  intros Hrun.
  destruct (checkTld_trace _ _ _ _ _ Hrun)
    as (bs & evs & found & Hr & _ & _ & Hcnt & _).
  rewrite Hr, List.length_app. f_equal. unfold BATCH_SIZE in Hcnt.
  apply (Nat.div_unique (length combos + 49) 50 (length bs)
           (length combos + 49 - 50 * length bs)); lia.
Qed.

Lemma tldLoop_Finished (tlds : list string) :
  forall st st',
    tldLoop registrar combos tlds st = Finished st' ->
    (outputsAgree st -> outputsAgree st') /\
    length (requests st')
    = length (requests st) + length tlds * ((length combos + 49) / 50).
Proof.
  induction tlds as [|tld rest IH]; intros st st' Hrun; cbn [tldLoop] in Hrun.
  - injection Hrun as <-. split; [tauto | simpl; lia].
  - destruct (checkTld registrar combos tld st) as [st1|st1|] eqn:Hc;
      try discriminate.
    destruct (IH st1 st' Hrun) as [Hagree Hcount]. split.
    + intros Hst. apply Hagree. now apply (checkTld_outputsAgree tld st).
    + rewrite Hcount, (checkTld_request_count tld st st1 Hc).
      cbn [length]. lia.
Qed.

End WholeRun.

Lemma main_unfold (numberOfLetters : nat) (tlds : list string)
    (patternArg : string) (registrar : Registrar) :
  main numberOfLetters tlds patternArg registrar
  = tldLoop registrar
      (filterByPattern numberOfLetters (wordsOfLength numberOfLetters)
         patternArg)
      tlds (initialState tlds).
Proof. unfold main. now rewrite generateCombos_spec. Qed.

(** X20. However the run ends, nothing empty was appended to a file, and
    every append was for a TLD of the list. *)
Theorem main_saves_well_formed (numberOfLetters : nat) (tlds : list string)
    (patternArg : string) (registrar : Registrar) (st : State) :
  lastState (main numberOfLetters tlds patternArg registrar) = Some st ->
  savesWellFormed tlds st.
Proof.
  rewrite main_unfold. intros Hlast.
  pose proof (tldLoop_savesWellFormed registrar
                (filterByPattern numberOfLetters
                   (wordsOfLength numberOfLetters) patternArg)
                tlds tlds (initialState tlds) (incl_refl tlds)
                (List.Forall_nil _)) as Hinv.
  destruct (tldLoop _ _ _ _) as [st'|st'|]; [| |discriminate];
    injection Hlast as <-; exact Hinv.
Qed.

(** X21. When the run finishes, the two outputs agree: for every TLD the
    names in the object written to available.json are the names appended
    to the text file of the TLD, in the same order. *)
Theorem main_outputs_agree (numberOfLetters : nat) (tlds : list string)
    (patternArg : string) (registrar : Registrar) (st : State) :
  main numberOfLetters tlds patternArg registrar = Finished st ->
  outputsAgree st.
Proof.
  rewrite main_unfold. intros Hrun.
  apply (proj1 (tldLoop_Finished _ _ _ _ _ Hrun)).
  intros t. unfold initialState. cbn [saves availableByTld].
  destruct (in_dec string_dec t tlds) as [Hin|Hout].
  - now rewrite (proj1 (fold_insert_lookup _ tlds ∅ t) Hin).
  - now rewrite (proj2 (fold_insert_lookup _ tlds ∅ t) Hout), lookup_empty.
Qed.

(** X22. A run that finishes has sent, for each TLD of the list, as many
    requests as the number of candidates divided by 50, rounded up. *)
Theorem main_request_count (numberOfLetters : nat) (tlds : list string)
    (patternArg : string) (registrar : Registrar) (st : State) :
  main numberOfLetters tlds patternArg registrar = Finished st ->
  length (requests st)
  = length tlds
    * ((length (filterByPattern numberOfLetters
                  (wordsOfLength numberOfLetters) patternArg) + 49) / 50).
Proof.
  rewrite main_unfold. intros Hrun.
  now rewrite (proj2 (tldLoop_Finished _ _ _ _ _ Hrun)).
Qed.

Lemma sampleMain_run :
  main 1 [".com"] "none" allAvailable = Finished sampleMain.
Proof. vm_compute. reflexivity. Qed.

Lemma main_saves_well_formed_witness : savesWellFormed [".com"] sampleMain.
Proof.
  apply (main_saves_well_formed 1 [".com"] "none" allAvailable).
  rewrite sampleMain_run. reflexivity.
Defined.

Lemma main_outputs_agree_witness : outputsAgree sampleMain.
Proof.
  apply (main_outputs_agree 1 [".com"] "none" allAvailable).
  exact sampleMain_run.
Defined.

Lemma main_request_count_witness :
  length (requests sampleMain)
  = length [".com"]
    * ((length (filterByPattern 1 (wordsOfLength 1) "none") + 49) / 50).
Proof.
  apply (main_request_count 1 [".com"] "none" allAvailable).
  exact sampleMain_run.
Defined.

(** ** Further properties: the command line *)

Lemma trimStart_head (s : string) : headNotSpace (Js.trimStart s).
Proof.
  induction s as [|c s IH]; [exact I|].
  cbn [Js.trimStart]. destruct (Js.isWhiteSpace c) eqn:Hc; [exact IH|].
  exact Hc.
Qed.

Lemma trimStart_fix (s : string) : headNotSpace s -> Js.trimStart s = s.
Proof.
  destruct s as [|c s]; [reflexivity|]. cbn. now intros ->.
Qed.

Lemma trimEnd_head (s : string) :
  headNotSpace s -> headNotSpace (Js.trimEnd s).
Proof.
  destruct s as [|c s]; [exact id|]. cbn [headNotSpace Js.trimEnd].
  intros Hc. rewrite Hc. now destruct (Js.trimEnd s).
Qed.

Lemma trimEnd_cons (c : ascii) (s : string) :
  Js.trimEnd (String c s)
  = match Js.trimEnd s with
    | EmptyString =>
        if Js.isWhiteSpace c then EmptyString else String c EmptyString
    | t => String c t
    end.
Proof. reflexivity. Qed.

Lemma trimEnd_idem (s : string) : Js.trimEnd (Js.trimEnd s) = Js.trimEnd s.
Proof.
  induction s as [|c s IH]; [reflexivity|]. rewrite trimEnd_cons.
  destruct (Js.trimEnd s) as [|d t] eqn:Ht.
  - destruct (Js.isWhiteSpace c) eqn:Hc; [reflexivity|].
    rewrite trimEnd_cons. cbn [Js.trimEnd]. now rewrite Hc.
  - rewrite trimEnd_cons. now rewrite IH.
Qed.

Lemma trim_idem (s : string) : Js.trim (Js.trim s) = Js.trim s.
Proof.
  unfold Js.trim.
  rewrite (trimStart_fix (Js.trimEnd (Js.trimStart s)))
    by apply trimEnd_head, trimStart_head.
  apply trimEnd_idem.
Qed.

(** X23. Every TLD read from the command line is non-empty and has no
    white space at either end: empty items of the comma-separated list
    are dropped, the others are trimmed. *)
Theorem parseTlds_entries (tldArg tld : string) :
  In tld (parseTlds tldArg) -> tld <> "" /\ Js.trim tld = tld.
Proof.
  unfold parseTlds. rewrite filter_In, in_map_iff.
  intros [[p [<- _]] Hne]. split.
  - intros Heq. rewrite Heq in Hne. discriminate.
  - apply trim_idem.
Qed.

Lemma parseTlds_entries_witness : ".io" <> "" /\ Js.trim ".io" = ".io".
Proof.
  apply (parseTlds_entries ".com, .io ,,").
  vm_compute. right. left. reflexivity.
Defined.

(** ** Further properties: an empty signature *)

Lemma matchesPattern_empty (word : string) : matchesPattern word "" = true.
Proof.
  unfold matchesPattern. cbv zeta.
  destruct (getPattern word) as [|c s]; reflexivity.
Qed.

(** X24. An empty item in the list of signatures, as a trailing comma
    leaves one, matches every word: the filter then keeps exactly the
    pronounceable combinations. *)
Theorem filterByPattern_empty_signature (n : nat) (combos : list string)
    (patternFilter : string) :
  patternFilter <> "none" -> patternFilter <> "auto" ->
  In "" (patternsToMatch n patternFilter) ->
  filterByPattern n combos patternFilter
  = List.filter hasGoodPronounceability combos.
Proof.
  intros Hnone Hauto Hin. unfold filterByPattern.
  apply String.eqb_neq in Hnone, Hauto. rewrite Hnone, Hauto. simpl.
  apply filter_ext. intros w.
  assert (Hex : existsb (fun pattern => matchesPattern w pattern)
                  (patternsToMatch n patternFilter) = true).
  { apply existsb_exists. exists "". split; [exact Hin|].
    apply matchesPattern_empty. }
  now rewrite Hex.
Qed.

Lemma filterByPattern_empty_signature_witness :
  filterByPattern 3 ["cat"; "zzz"; "ace"] "CVC,"
  = List.filter hasGoodPronounceability ["cat"; "zzz"; "ace"].
Proof.
  apply (filterByPattern_empty_signature 3 ["cat"; "zzz"; "ace"] "CVC,").
  - discriminate.
  - discriminate.
  - vm_compute. right. left. reflexivity.
Defined.

(** ** Further properties: what an aborted run leaves *)

Section Aborted.

Variable registrar : Registrar.
Variable combos : list string.




End Aborted.


